(** * Combat and wave layer of phaser3-game-demo

    A shallow embedding of the game logic in [src/src/Enemy.js],
    [src/src/Player.js], [src/src/GameScene.js] and the [UI] class of
    [src/utils/Debug.js].  Engine calls that
    only draw (tints, tweens, shakes, particle effects) are recorded in
    an effect log, so that theorems can say whether they happened.
    Times in milliseconds are integers ([Z]); positions and velocities,
    which the engine keeps as JavaScript numbers and feeds to
    trigonometric functions, are reals ([R]). *)

From Stdlib Require Import ZArith Reals Lra Lia List.
From stdpp Require Import base gmap strings.
Import ListNotations.

Open Scope Z_scope.

(** ** JavaScript values, as far as truthiness tests need them *)
Module JS.

Inductive value :=
| Undefined
| Null
| Bool (b : bool)
| Num (n : Z)
| Str (s : string)
| Obj.

(** [!!v] in JavaScript (NaN is not modelled). *)
Definition truthy (v : value) : bool :=
  match v with
  | Undefined | Null => false
  | Bool b => b
  | Num n => negb (Z.eqb n 0)
  | Str s => negb (String.eqb s "")
  | Obj => true
  end.

End JS.

(** ** Enemy.js and Player.js *)
Module Combat.

(** [attackDirection] only ever holds these four strings. *)
Inductive Direction := DLeft | DRight | DUp | DDown.

(** Engine-side effects and delayed callbacks registered by the code. *)
Inductive Action :=
| ClearStun          (** [enemy.stunned = false] *)
| ClearTint          (** [enemy.clearTint()] *)
| DestroyEnemy.      (** tween [onComplete: this.destroy()] *)

Inductive Fx :=
| DeathExplosion (x y : R)          (** [createDeathExplosion(scene, x, y)] *)
| Tween (duration : Z) (a : Action) (** [scene.tweens.add({duration, onComplete})] *)
| DelayedCall (delay : Z) (a : Action). (** [scene.time.delayedCall(delay, cb)] *)

Record Enemy := mkEnemy {
  ex : R; ey : R;            (** position *)
  vx : R; vy : R;            (** [body.velocity] *)
  bodyEnable : bool;         (** [body.enable] *)
  tint : option Z;           (** [setTint] / [clearTint] *)
  stunned : bool;
  hitsToKill : Z;
  hitsTaken : Z;
  lastHitTime : Z;
  hitCooldown : Z;
  isDying : bool
}.

Definition set_velocity (e : Enemy) (x y : R) : Enemy :=
  mkEnemy e.(ex) e.(ey) x y e.(bodyEnable) e.(tint) e.(stunned)
    e.(hitsToKill) e.(hitsTaken) e.(lastHitTime) e.(hitCooldown) e.(isDying).

Definition set_stunned (e : Enemy) (b : bool) : Enemy :=
  mkEnemy e.(ex) e.(ey) e.(vx) e.(vy) e.(bodyEnable) e.(tint) b
    e.(hitsToKill) e.(hitsTaken) e.(lastHitTime) e.(hitCooldown) e.(isDying).

Definition set_tint (e : Enemy) (t : option Z) : Enemy :=
  mkEnemy e.(ex) e.(ey) e.(vx) e.(vy) e.(bodyEnable) t e.(stunned)
    e.(hitsToKill) e.(hitsTaken) e.(lastHitTime) e.(hitCooldown) e.(isDying).

(** The fields set by the constructor (after the validation checks). *)
Definition new_enemy (x y : R) : Enemy :=
  mkEnemy x y 0%R 0%R true None false 3 0 0 500 false.

(** [die()]: disable the body, explode at the current position, fade out
    for 500ms and then destroy the sprite. *)
Definition die (e : Enemy) : Enemy * list Fx :=
  (mkEnemy e.(ex) e.(ey) e.(vx) e.(vy) false e.(tint) e.(stunned)
     e.(hitsToKill) e.(hitsTaken) e.(lastHitTime) e.(hitCooldown) e.(isDying),
   [DeathExplosion e.(ex) e.(ey); Tween 500 DestroyEnemy]).

(** [takeDamage(damage)]; [currentTime] is [new Date().getTime()].
    Returns whether the enemy was killed. *)
Definition takeDamage (currentTime : Z) (damage : Z) (e : Enemy)
  : bool * Enemy * list Fx :=
  if e.(isDying) then (false, e, [])
  else if currentTime - e.(lastHitTime) <? e.(hitCooldown) then (false, e, [])
  else
    let e1 := mkEnemy e.(ex) e.(ey) e.(vx) e.(vy) e.(bodyEnable) e.(tint)
                e.(stunned) e.(hitsToKill) (e.(hitsTaken) + 1) currentTime
                e.(hitCooldown) e.(isDying) in
    if e1.(hitsToKill) <=? e1.(hitsTaken) then
      let e2 := mkEnemy e1.(ex) e1.(ey) e1.(vx) e1.(vy) e1.(bodyEnable)
                  e1.(tint) e1.(stunned) e1.(hitsToKill) e1.(hitsTaken)
                  e1.(lastHitTime) e1.(hitCooldown) true in
      let '(e3, fx) := die e2 in
      (true, e3, fx)
    else (false, e1, []).

(** A sequence of [takeDamage] calls at the given times. *)
Fixpoint takeDamage_seq (times : list Z) (damage : Z) (e : Enemy)
  : list bool * Enemy :=
  match times with
  | [] => ([], e)
  | t :: ts =>
      let '(k, e1, _) := takeDamage t damage e in
      let '(ks, e2) := takeDamage_seq ts damage e1 in
      (k :: ks, e2)
  end.

Record Player := mkPlayer {
  isAttacking : bool;
  attackDirection : Direction;
  attackDamage : Z;       (** 10 *)
  knockbackForce : R      (** 200 *)
}.

(** The knockback vector chosen by the [switch] in [hitEnemy]. *)
Definition knockback_of (d : Direction) (f : R) : R * R :=
  match d with
  | DRight => (f, 0%R)
  | DLeft => ((- f)%R, 0%R)
  | DUp => (0%R, (- f)%R)
  | DDown => (0%R, f)
  end.

(** [hitEnemy(enemy)]; [currentTime] is the wall-clock time seen by the
    enemy's [takeDamage]. *)
Definition hitEnemy (p : Player) (currentTime : Z) (enemy : Enemy)
  : bool * Enemy * list Fx :=
  if negb p.(isAttacking) then (false, enemy, [])
  else
    let '(kx, ky) := knockback_of p.(attackDirection) p.(knockbackForce) in
    let e1 := set_velocity enemy kx ky in
    let '(e2, fx1) :=
      if negb e1.(stunned) then (set_stunned e1 true, [DelayedCall 500 ClearStun])
      else (e1, []) in
    let e3 := set_tint e2 (Some 16711680) in
    let fx2 := [DelayedCall 150 ClearTint] in
    let '(_wasKilled, e4, fx3) := takeDamage currentTime p.(attackDamage) e3 in
    (true, e4, fx1 ++ fx2 ++ fx3).

End Combat.

(** ** The [Enemy] constructor (Enemy.js lines 22-72) *)
Module EnemyCtor.

(** The option bag passed as [config]; a missing property is
    [JS.Undefined]. *)
Record EnemyConfig := mkConfig {
  texture : JS.value;
  frame : JS.value;
  anims : JS.value
}.

(** What the constructor has done to the scene before it returns or
    throws. *)
Inductive CtorFx :=
| AddedToScene           (** [scene.add.existing(this)] *)
| AddedToPhysics.        (** [scene.physics.add.existing(this)] *)

(** [new Enemy(scene, x, y, config)]; [None] stands for an [undefined]
    or [null] config.  [inl msg] is [throw new Error(msg)]. *)
Definition construct (x y : R) (config : option EnemyConfig)
  : list CtorFx * (string + Combat.Enemy) :=
  match config with
  | None => ([], inl "Enemy requires a 'texture' property in the config.")
  | Some c =>
      if negb (JS.truthy c.(texture)) then
        ([], inl "Enemy requires a 'texture' property in the config.")
      else
        let fx := [AddedToScene; AddedToPhysics] in
        if negb (JS.truthy c.(anims)) then
          (fx, inl "Enemy requires an 'anims' object in the config with idleLeft, idleRight, runLeft, and runRight keys.")
        else (fx, inr (Combat.new_enemy x y))
  end.

Definition throws (r : list CtorFx * (string + Combat.Enemy)) : bool :=
  match snd r with inl _ => true | inr _ => false end.

End EnemyCtor.

(** ** Breakable items (GameScene.js lines 178-285) *)
Module Breakable.

(** The key [`${tile.x},${tile.y}`] is kept as the coordinate pair it
    is built from and parsed back into ([tileKey.split(',').map(Number)]). *)
Abbreviation TileKey := (Z * Z)%type.

Record Item := mkItem {
  tile : Z;            (** the tile's index in the items layer *)
  hits : Z;
  maxHits : Z;
  lastHitTime : Z
}.

Record Tiles := mkTiles {
  breakableItems : gmap TileKey Item;
  itemsLayer : gmap TileKey Z     (** tile index at each occupied cell *)
}.

Inductive Fx :=
| TintTile (k : TileKey)
| RestoreTintAfter (delay : Z) (k : TileKey)
| Shake (duration : Z)
| ItemExplosion (tileX tileY : Z).

(** [initBreakableItems]: one record per tile flagged [breakable]. *)
Fixpoint initBreakableItems (tiles : list (TileKey * Z * bool))
  (m : gmap TileKey Item) : gmap TileKey Item :=
  match tiles with
  | [] => m
  | (k, idx, breakable) :: ts =>
      initBreakableItems ts
        (if breakable then <[k := mkItem idx 0 2 0]> m else m)
  end.

(** [hitBreakableItem(tileKey)] at scene time [now].  [None] is the
    TypeError raised by [item.lastHitTime] when the key is not tracked. *)
Definition hitBreakableItem (now : Z) (tileKey : TileKey) (s : Tiles)
  : option (Tiles * list Fx) :=
  match s.(breakableItems) !! tileKey with
  | None => None
  | Some item =>
      if negb (item.(lastHitTime) =? 0) && (now - item.(lastHitTime) <? 500)
      then Some (s, [])
      else
        let item1 := mkItem item.(tile) (item.(hits) + 1) item.(maxHits) now in
        let fx := [TintTile tileKey; RestoreTintAfter 100 tileKey; Shake 100] in
        if item1.(maxHits) <=? item1.(hits) then
          Some (mkTiles (delete tileKey s.(breakableItems))
                        (delete tileKey s.(itemsLayer)),
                fx ++ [ItemExplosion tileKey.1 tileKey.2])
        else
          Some (mkTiles (<[tileKey := item1]> s.(breakableItems)) s.(itemsLayer), fx)
  end.

(** Two hits in a row, the second on the state left by the first. *)
Definition hit_twice (t1 t2 : Z) (k : TileKey) (s : Tiles) : option Tiles :=
  match hitBreakableItem t1 k s with
  | None => None
  | Some (s1, _) =>
      match hitBreakableItem t2 k s1 with
      | None => None
      | Some (s2, _) => Some s2
      end
  end.

End Breakable.

(** ** Wave director (GameScene.js lines 136-141, 288-309, 519-580) *)
Module Waves.

(** A pending [this.time.delayedCall(delay, () => this.startNextWave())],
    registered at scene time [scheduledAt]. *)
Record Timer := mkTimer { scheduledAt : Z; delay : Z }.

(** Enemies are identified by a fresh id; their spawn position, drawn by
    [getValidSpawnPoint] (module [Spawn]), does not enter the roster. *)
Record Wave := mkWave {
  currentWave : Z;
  maxWaves : Z;
  enemies : list nat;      (** [this.enemies], in push order *)
  nextId : nat;
  now : Z;                 (** scene clock *)
  pending : list Timer;
  wonShown : nat           (** number of [showGameWon()] calls *)
}.

Definition set_wave (s : Wave) (w : Z) : Wave :=
  mkWave w s.(maxWaves) s.(enemies) s.(nextId) s.(now) s.(pending) s.(wonShown).

(** [spawnEnemy(x, y)]: [this.enemies.push(enemy)]. *)
Definition spawnEnemy (s : Wave) : Wave :=
  mkWave s.(currentWave) s.(maxWaves) (s.(enemies) ++ [s.(nextId)])
    (S s.(nextId)) s.(now) s.(pending) s.(wonShown).

(** [for (let i = 0; i < enemiesToSpawn; i++) spawnEnemy(...)] *)
Fixpoint spawn_loop (n : nat) (s : Wave) : Wave :=
  match n with
  | O => s
  | S n' => spawn_loop n' (spawnEnemy s)
  end.

Definition showGameWon (s : Wave) : Wave :=
  mkWave s.(currentWave) s.(maxWaves) s.(enemies) s.(nextId) s.(now)
    s.(pending) (S s.(wonShown)).

Definition startNextWave (s : Wave) : Wave :=
  let s1 := set_wave s (s.(currentWave) + 1) in
  if s1.(maxWaves) <? s1.(currentWave) then showGameWon s1
  else spawn_loop (Z.to_nat s1.(currentWave)) s1.

(** The [destroy] handler registered by [spawnEnemy] for enemy [id]. *)
Definition onDestroy (id : nat) (s : Wave) : Wave :=
  let es := List.filter (fun e => negb (Nat.eqb e id)) s.(enemies) in
  match es with
  | [] => mkWave s.(currentWave) s.(maxWaves) es s.(nextId) s.(now)
            (s.(pending) ++ [mkTimer s.(now) 1000]) s.(wonShown)
  | _ => mkWave s.(currentWave) s.(maxWaves) es s.(nextId) s.(now)
           s.(pending) s.(wonShown)
  end.

Definition advance (dt : Z) (s : Wave) : Wave :=
  mkWave s.(currentWave) s.(maxWaves) s.(enemies) s.(nextId) (s.(now) + dt)
    s.(pending) s.(wonShown).

Definition with_pending (s : Wave) (p : list Timer) : Wave :=
  mkWave s.(currentWave) s.(maxWaves) s.(enemies) s.(nextId) s.(now) p
    s.(wonShown).

(** The fields set in [create()], before its call to [startNextWave()]. *)
Definition before_create (t0 : Z) : Wave := mkWave 0 5 [] O t0 [] O.

(** The state left by [create()]. *)
Definition after_create (t0 : Z) : Wave := startNextWave (before_create t0).

(** Events of one session: a live enemy is destroyed (the end of its
    death tween), time passes, or a due delayed call fires and runs
    [startNextWave()]. *)
Inductive step : Wave -> Wave -> Prop :=
| step_destroy s id :
    In id s.(enemies) -> step s (onDestroy id s)
| step_tick s dt :
    0 <= dt -> step s (advance dt s)
| step_fire s l1 t l2 :
    s.(pending) = l1 ++ t :: l2 ->
    t.(scheduledAt) + t.(delay) <= s.(now) ->
    step s (startNextWave (with_pending s (l1 ++ l2))).

Inductive reachable : Wave -> Prop :=
| reach_init t0 : reachable (after_create t0)
| reach_step s s' : reachable s -> step s s' -> reachable s'.

(** The invariant behind the wave timer: a pending [startNextWave]
    callback exists only while [this.enemies] is empty, it was
    registered with a 1000ms delay no later than now, and there is at
    most one. *)
Definition wave_inv (s : Wave) : Prop :=
  (forall t, In t s.(pending) ->
     s.(enemies) = [] /\ t.(delay) = 1000 /\ t.(scheduledAt) <= s.(now))
  /\ (length s.(pending) <= 1)%nat.

End Waves.

(** ** The UI class (src/utils/Debug.js lines 242-461) *)
Module UI.

(** A heart image: its x position, [visible], [alpha] and [scale]. *)
Record Heart := mkHeart { hx : R; hvisible : bool; halpha : R; hscale : R }.

(** The UI state; [heartPulseTween] says whether [this.heartPulseTween]
    holds a running tween.  Camera shakes and the pause overlay are not
    recorded. *)
Record UI := mkUI {
  isPaused : bool;
  maxHealth : Z;
  currentHealth : Z;
  hearts : list Heart;
  heartPulseTween : bool
}.

(** The loop of [createHealthDisplay]: heart [i] sits at
    [200 + 35 + i * 12], is scaled by 0.7 and is [unshift]ed. *)
Fixpoint create_hearts (i n : nat) (acc : list Heart) : list Heart :=
  match n with
  | O => acc
  | S n' => create_hearts (S i) n' (mkHeart (235 + 12 * INR i) true 1 0.7 :: acc)
  end.

(** [new UI(scene, playerHealth)] *)
Definition new_UI (playerHealth : Z) : UI :=
  mkUI false playerHealth playerHealth
    (create_hearts 0 (Z.to_nat playerHealth) []) false.

(** The [for] loop of [updateHealth] over [this.hearts], from index [i]. *)
Fixpoint shade (i cur : Z) (hs : list Heart) : list Heart :=
  match hs with
  | [] => []
  | h :: t =>
      (if i <? cur then mkHeart h.(hx) true 1 h.(hscale)
       else mkHeart h.(hx) h.(hvisible) (3 / 10) h.(hscale))
      :: shade (i + 1) cur t
  end.

Definition startHeartPulse (u : UI) : UI :=
  if negb u.(heartPulseTween) && (0 <? Z.of_nat (length u.(hearts)))%Z then
    mkUI u.(isPaused) u.(maxHealth) u.(currentHealth) u.(hearts) true
  else u.

Definition stopHeartPulse (u : UI) : UI :=
  if u.(heartPulseTween) then
    mkUI u.(isPaused) u.(maxHealth) u.(currentHealth)
      (map (fun h => mkHeart h.(hx) h.(hvisible)
                       (if h.(hvisible) then 1 else 3 / 10) 1) u.(hearts))
      false
  else u.

Definition updateHealth (health : Z) (u : UI) : UI :=
  let cur := Z.max 0 (Z.min health u.(maxHealth)) in
  let u1 := mkUI u.(isPaused) u.(maxHealth) cur (shade 0 cur u.(hearts))
              u.(heartPulseTween) in
  if cur =? 1 then startHeartPulse u1 else stopHeartPulse u1.

(** [damagePlayer(amount)]: returns the unclamped [newHealth]. *)
Definition damagePlayer (amount : Z) (u : UI) : Z * UI :=
  let newHealth := u.(currentHealth) - amount in
  (newHealth, updateHealth newHealth u).

(** [healPlayer(amount)] *)
Definition healPlayer (amount : Z) (u : UI) : Z * UI :=
  let newHealth := u.(currentHealth) + amount in
  (newHealth, updateHealth newHealth u).

(** [n] successive [damagePlayer(1)] calls. *)
Fixpoint damage_n (n : nat) (u : UI) : UI :=
  match n with
  | O => u
  | S n' => damage_n n' (damagePlayer 1 u).2
  end.

End UI.

(** ** Player health and enemy contact (GameScene.js lines 455-511, 640-673) *)
Module Health.

Inductive Action :=
| ResetInvincible      (** [playerInvincible = false; player.setAlpha(1)] *)
| ClearPlayerTint      (** [player.clearTint()] *)
| EndKnockback.        (** [isKnockedBack = false] *)

Inductive Fx :=
| Shake (duration : Z)
| PlayerTintRed
| PlayerAlphaHalf
| FlashInterval (delay : Z) (repeat : Z)
| DeathTween                          (** [playerDeath()]: fall, then game over *)
| HitEffect (x y : R)                 (** [createHitEffect] *)
| After (delay : Z) (a : Action).     (** [time.delayedCall] / [time.addEvent] *)

Record Scene := mkScene {
  ui : UI.UI;                  (** [this.ui]; it holds the player's health *)
  invincibilityTime : Z;       (** 1000 *)
  playerInvincible : bool;
  isKnockedBack : bool;
  px : R; py : R;              (** player position *)
  pvx : R; pvy : R;            (** player velocity *)
  log : list Fx
}.

Definition set_ui (s : Scene) (u : UI.UI) : Scene :=
  mkScene u s.(invincibilityTime) s.(playerInvincible)
    s.(isKnockedBack) s.(px) s.(py) s.(pvx) s.(pvy) s.(log).

Definition set_invincible (s : Scene) (b : bool) : Scene :=
  mkScene s.(ui) s.(invincibilityTime) b
    s.(isKnockedBack) s.(px) s.(py) s.(pvx) s.(pvy) s.(log).

Definition emit (s : Scene) (fx : list Fx) : Scene :=
  mkScene s.(ui) s.(invincibilityTime) s.(playerInvincible)
    s.(isKnockedBack) s.(px) s.(py) s.(pvx) s.(pvy) (s.(log) ++ fx).

(** [damagePlayer()]: [this.ui.damagePlayer(1)] updates the UI's health
    and hearts ([UI.damagePlayer]) and then shakes the camera for 200ms;
    the scene branches on the unclamped value it returns. *)
Definition damagePlayer (s : Scene) : Scene :=
  if s.(playerInvincible) then s
  else
    let s1 := emit s [Shake 100] in
    let '(newHealth, ui1) := UI.damagePlayer 1 s1.(ui) in
    let s2 := emit (set_ui s1 ui1) [Shake 200] in
    if newHealth <=? 0 then emit s2 [DeathTween]
    else
      let s3 := set_invincible s2 true in
      emit s3 [PlayerAlphaHalf; FlashInterval 150 5;
               After s3.(invincibilityTime) ResetInvincible].


Definition run_action (a : Action) (s : Scene) : Scene :=
  match a with
  | ResetInvincible => set_invincible s false
  | ClearPlayerTint => s
  | EndKnockback =>
      mkScene s.(ui) s.(invincibilityTime)
        s.(playerInvincible) false s.(px) s.(py) s.(pvx) s.(pvy) s.(log)
  end.

(** [Math.atan2(y, x)] *)
Definition atan2 (y x : R) : R :=
  if Rlt_dec 0 x then atan (y / x)
  else if Rlt_dec x 0 then
    (if Rle_dec 0 y then atan (y / x) + PI else atan (y / x) - PI)%R
  else if Rlt_dec 0 y then (PI / 2)%R
  else if Rlt_dec y 0 then (- (PI / 2))%R
  else 0%R.

(** [Phaser.Math.Angle.Between(x1, y1, x2, y2)] *)
Definition angle_between (x1 y1 x2 y2 : R) : R := atan2 (y2 - y1) (x2 - x1).

(** [Player.knockback(velocityX, velocityY)] (knockbackDuration = 300) *)
Definition knockback (vx vy : R) (s : Scene) : Scene :=
  mkScene s.(ui) s.(invincibilityTime) s.(playerInvincible)
    true s.(px) s.(py) vx vy (s.(log) ++ [After 300 EndKnockback]).

(** [playerHit(player, enemy)] for an enemy at [(enemyX, enemyY)]. *)
Definition playerHit (enemyX enemyY : R) (s : Scene) : Scene :=
  let s1 := emit s [PlayerTintRed; After 100 ClearPlayerTint] in
  let angle := angle_between enemyX enemyY s1.(px) s1.(py) in
  let knockbackSpeed := 300%R in
  let s2 := knockback (cos angle * knockbackSpeed) (sin angle * knockbackSpeed) s1 in
  let s3 := emit s2 [HitEffect (s2.(px) - cos angle * 10) (s2.(py) - sin angle * 10)]%R in
  damagePlayer s3.

End Health.

(** ** Spawn-point search (GameScene.js lines 583-637) *)
Module Spawn.

Record Props := mkProps { collides : bool; breakable : bool }.

(** A tile; [properties] is [None] when the tile has none. *)
Record Tile := mkTile { properties : option Props }.

Record Map := mkMap {
  widthInPixels : Z;
  heightInPixels : Z;
  tileWidth : Z;
  tileHeight : Z;
  wallsLayer : Z -> Z -> option Tile;   (** [getTileAt]; [None] is [null] *)
  itemsLayer : Z -> Z -> option Tile
}.

(** [Math.random()] draws, indexed by the order in which they are made. *)
Abbreviation Random := (nat -> R).

(** [Phaser.Math.Between(min, max)]:
    [Math.floor(Math.random() * (max - min + 1) + min)]. *)
Definition Between (r : R) (min max : Z) : Z :=
  Int_part (r * IZR (max - min + 1) + IZR min).

(** [Phaser.Math.Distance.Between] *)
Definition distance (x1 y1 x2 y2 : R) : R :=
  sqrt ((x1 - x2) * (x1 - x2) + (y1 - y2) * (y1 - y2)).

Definition worldToTileX (m : Map) (x : Z) : Z := x / m.(tileWidth).
Definition worldToTileY (m : Map) (y : Z) : Z := y / m.(tileHeight).

Definition not_wall (t : option Tile) : bool :=
  match t with
  | Some (mkTile (Some p)) => negb p.(collides)
  | _ => true
  end.

Definition not_breakable (t : option Tile) : bool :=
  match t with
  | Some (mkTile (Some p)) => negb p.(breakable)
  | _ => true
  end.

Definition minDistanceFromPlayer : R := 100.

(** The test of one candidate [(x, y)]. *)
Definition valid_position (m : Map) (playerX playerY : R) (x y : Z) : bool :=
  let tileX := worldToTileX m x in
  let tileY := worldToTileY m y in
  not_wall (m.(wallsLayer) tileX tileY)
  && not_breakable (m.(itemsLayer) tileX tileY)
  && (if Rlt_dec minDistanceFromPlayer
           (distance (IZR x) (IZR y) playerX playerY) then true else false).

(** The [while (!validPosition && attempts < 50)] loop; [k] is the index
    of the next random draw, [xy] the current values of [x] and [y]
    ([None] while they are still [undefined]).  Returns the next draw
    index, [attempts], [(x, y)] and [validPosition].  [fuel] bounds the
    recursion and is never the limiting factor from the entry point. *)
Fixpoint search (m : Map) (rnd : Random) (playerX playerY : R) (fuel : nat)
  (k attempts : nat) (xy : option (Z * Z)) (validPosition : bool)
  : nat * nat * option (Z * Z) * bool :=
  match fuel with
  | O => (k, attempts, xy, validPosition)
  | S f =>
      if negb validPosition && Nat.ltb attempts 50 then
        let attempts' := S attempts in
        let x := Between (rnd k) 50 (m.(widthInPixels) - 50) in
        let y := Between (rnd (S k)) 50 (m.(heightInPixels) - 50) in
        let v := valid_position m playerX playerY x y in
        search m rnd playerX playerY f (S (S k)) attempts' (Some (x, y)) v
      else (k, attempts, xy, validPosition)
  end.

(** [getValidSpawnPoint()] with the random draws [rnd] starting at index
    [k0]; returns the number of attempts and [{x, y}], whose fields are
    [None] when [undefined]. *)
Definition getValidSpawnPoint_run (m : Map) (rnd : Random) (k0 : nat)
  (playerX playerY : R) : nat * (option R * option R) :=
  let '(k, attempts, xy, validPosition) :=
    search m rnd playerX playerY 50 k0 0 None false in
  if negb validPosition then
    let angle := (rnd k * PI * 2)%R in
    (attempts, (Some (playerX + cos angle * 150)%R,
                Some (playerY + sin angle * 150)%R))
  else
    match xy with
    | Some (x, y) => (attempts, (Some (IZR x), Some (IZR y)))
    | None => (attempts, (None, None))
    end.

Definition getValidSpawnPoint (m : Map) (rnd : Random) (k0 : nat)
  (playerX playerY : R) : option R * option R :=
  snd (getValidSpawnPoint_run m rnd k0 playerX playerY).

End Spawn.

(** ** Enemy steering, [Enemy.update()] (Enemy.js lines 74-152) *)
Module EnemyAI.

(** The keys of [config.anims]. *)
Inductive AnimKey := IdleLeft | IdleRight | RunLeft | RunRight.

(** The state [update()] reads and writes.  [target] is the chased
    sprite's position ([null] as [None]); [mvx], [mvy] are
    [body.velocity]. *)
Record Mob := mkMob {
  mx : R; my : R;
  mvx : R; mvy : R;
  speed : R;
  currentDirection : string;
  flipX : bool;
  target : option (R * R);
  mstunned : bool;
  mdying : bool;
  anim : option AnimKey
}.

Definition SQRT1_2 : R := (/ sqrt 2)%R.

(** [Math.abs(a) > b] and [a < b] on numbers. *)
Definition gtb (a b : R) : bool := if Rlt_dec b a then true else false.
Definition ltb (a b : R) : bool := if Rlt_dec a b then true else false.
Definition neqb (a b : R) : bool := if Req_dec_T a b then false else true.

(** The chase part of [update()] (the [if (this.target)] block):
    returns the new facing, flip, velocity and [moving]. *)
Definition chase (e : Mob) (tx ty : R)
  : string * bool * (R * R) * bool :=
  let diffX := (tx - e.(mx))%R in
  let diffY := (ty - e.(my))%R in
  let '(dir, flip, velocityX, movX) :=
    if gtb (Rabs diffX) 5 then
      if ltb diffX 0 then ("left"%string, true, (- e.(speed))%R, true)
      else ("right"%string, false, e.(speed), true)
    else (e.(currentDirection), e.(flipX), 0%R, false) in
  let '(velocityY, movY) :=
    if gtb (Rabs diffY) 0 then
      if ltb diffY 0 then ((- e.(speed))%R, true) else (e.(speed), true)
    else (0%R, false) in
  let '(vx', vy') :=
    if neqb velocityX 0 && neqb velocityY 0
    then ((velocityX * SQRT1_2)%R, (velocityY * SQRT1_2)%R)
    else (velocityX, velocityY) in
  (dir, flip, (vx', vy'), movX || movY).

Definition update (e : Mob) : Mob :=
  if e.(mstunned) || e.(mdying) then e
  else
    let '(dir, flip, (bvx, bvy), moving) :=
      match e.(target) with
      | Some (tx, ty) =>
          let '(dir, flip, v, moving) := chase e tx ty in
          (dir, flip, (if moving then v else (e.(mvx), e.(mvy))), moving)
      | None => (e.(currentDirection), e.(flipX), (e.(mvx), e.(mvy)), false)
      end in
    let left := String.eqb dir "left" in
    if moving || gtb (Rabs bvx) 10 || gtb (Rabs bvy) 10 then
      mkMob e.(mx) e.(my) bvx bvy e.(speed) dir flip e.(target)
        e.(mstunned) e.(mdying) (Some (if left then RunLeft else RunRight))
    else
      let bvx' := if ltb (Rabs bvx) 5 then 0%R else bvx in
      let bvy' := if ltb (Rabs bvy) 5 then 0%R else bvy in
      mkMob e.(mx) e.(my) bvx' bvy' e.(speed) dir flip e.(target)
        e.(mstunned) e.(mdying) (Some (if left then IdleLeft else IdleRight)).

End EnemyAI.

(** ** Player movement, sword placement and attack (Player.js lines 58-276) *)
Module PlayerCtl.

Import Combat.

(** [this.cursors]: which arrow keys are down. *)
Record Keys := mkKeys { kleft : bool; kright : bool; kup : bool; kdown : bool }.

Record Knight := mkKnight {
  x : R; y : R;
  pvx : R; pvy : R;            (** [body.velocity] *)
  flipX : bool;
  currentDirection : string;
  attackDirection : Direction;
  isAttacking : bool;
  isKnockedBack : bool;
  anim : string;
  swordX : R; swordY : R; swordAngle : R; swordFlipX : bool; swordVisible : bool;
  hitboxX : R; hitboxY : R; hitboxEnable : bool  (** [swordHitbox.body.enable] *)
}.

Inductive Fx :=
| SlashEffect (sx sy angle : R) (flip : bool)   (** [createSlashEffect] *)
| SwingTween (endAngle : R) (duration : Z) (baseAngle : R).
  (** sword tween; its [onComplete] is [attack_complete baseAngle] *)

Definition speed : R := 150.
Definition attackDuration : Z := 200.

(** Lines 59-135 of [update()]. *)
Definition update_movement (k : Keys) (p : Knight) : Knight :=
  let '(ad, flip, cdir, velocityX, velocityY, moving) :=
    if negb p.(isKnockedBack) then
      let ad :=
        if k.(kleft) then DLeft else if k.(kright) then DRight
        else if k.(kup) then DUp else if k.(kdown) then DDown
        else p.(attackDirection) in
      let '(flip, cdir, vX, mX) :=
        if k.(kleft) then (true, "left"%string, (- speed)%R, true)
        else if k.(kright) then (false, "right"%string, speed, true)
        else (p.(flipX), p.(currentDirection), 0%R, false) in
      let '(vY, mY) :=
        if k.(kup) then ((- speed)%R, true)
        else if k.(kdown) then (speed, true) else (0%R, false) in
      let '(vX', vY') :=
        if (k.(kleft) || k.(kright)) && (k.(kup) || k.(kdown))
        then ((vX * EnemyAI.SQRT1_2)%R, (vY * EnemyAI.SQRT1_2)%R)
        else (vX, vY) in
      (ad, flip, cdir, vX', vY', mX || mY)
    else (p.(attackDirection), p.(flipX), p.(currentDirection), 0%R, 0%R, false) in
  let left := String.eqb cdir "left" in
  if moving then
    mkKnight p.(x) p.(y) velocityX velocityY flip cdir ad p.(isAttacking)
      p.(isKnockedBack) (if left then "knight-run-left" else "knight-run-right")
      p.(swordX) p.(swordY) p.(swordAngle) p.(swordFlipX) p.(swordVisible)
      p.(hitboxX) p.(hitboxY) p.(hitboxEnable)
  else
    let vx' := if EnemyAI.ltb (Rabs p.(pvx)) 5 then 0%R else p.(pvx) in
    let vy' := if EnemyAI.ltb (Rabs p.(pvy)) 5 then 0%R else p.(pvy) in
    mkKnight p.(x) p.(y) vx' vy' flip cdir ad p.(isAttacking)
      p.(isKnockedBack) (if left then "knight-idle-left" else "knight-idle-right")
      p.(swordX) p.(swordY) p.(swordAngle) p.(swordFlipX) p.(swordVisible)
      p.(hitboxX) p.(hitboxY) p.(hitboxEnable).

Definition set_sword (p : Knight) (sx sy ang : R) (fl : bool) (hx hy : R) : Knight :=
  mkKnight p.(x) p.(y) p.(pvx) p.(pvy) p.(flipX) p.(currentDirection)
    p.(attackDirection) p.(isAttacking) p.(isKnockedBack) p.(anim)
    sx sy ang fl p.(swordVisible) hx hy p.(hitboxEnable).

(** [updateSwordPosition()], [offset = 13]. *)
Definition updateSwordPosition (p : Knight) : Knight :=
  let offset := 13%R in
  match p.(attackDirection) with
  | DRight => set_sword p (p.(x) + offset) p.(y) 0 false (p.(x) + offset * 1.5) p.(y)
  | DLeft => set_sword p (p.(x) - offset) p.(y) 0 true (p.(x) - offset * 1.5) p.(y)
  | DUp => set_sword p p.(x) (p.(y) - offset) (-90) false p.(x) (p.(y) - offset * 1.5)
  | DDown => set_sword p p.(x) (p.(y) + offset) 90 false p.(x) (p.(y) + offset * 1.5)
  end%R.

(** The [switch] of [attack()]: base angle, flip, slash offsets and angle. *)
Definition attack_params (d : Direction) : R * bool * R * R * R :=
  match d with
  | DRight => (0, false, 20, 0, 0)
  | DLeft => (0, true, -20, 0, 0)
  | DUp => (-90, false, 0, -20, -90)
  | DDown => (90, false, 0, 20, 90)
  end%R.

Definition attack (p : Knight) : Knight * list Fx :=
  if p.(isAttacking) then (p, [])
  else
    let '(baseAngle, flip, sox, soy, slashAngle) := attack_params p.(attackDirection) in
    (mkKnight p.(x) p.(y) p.(pvx) p.(pvy) p.(flipX) p.(currentDirection)
       p.(attackDirection) true p.(isKnockedBack) p.(anim)
       p.(swordX) p.(swordY) (baseAngle - 60)%R flip true
       p.(hitboxX) p.(hitboxY) true,
     [SlashEffect (p.(x) + sox) (p.(y) + soy) slashAngle flip;
      SwingTween (baseAngle + 60)%R attackDuration baseAngle]).

(** The tween's [onComplete]. *)
Definition attack_complete (baseAngle : R) (p : Knight) : Knight :=
  mkKnight p.(x) p.(y) p.(pvx) p.(pvy) p.(flipX) p.(currentDirection)
    p.(attackDirection) false p.(isKnockedBack) p.(anim)
    p.(swordX) p.(swordY) baseAngle p.(swordFlipX) false
    p.(hitboxX) p.(hitboxY) false.

(** [update()]; [justDown] is [Phaser.Input.Keyboard.JustDown(attackKey)]. *)
Definition update (k : Keys) (justDown : bool) (p : Knight) : Knight * list Fx :=
  let p2 := updateSwordPosition (update_movement k p) in
  if justDown then attack p2 else (p2, []).

End PlayerCtl.

(** ** Sword against breakable items, [checkSwordItemCollisions()]
    (GameScene.js lines 178-233) *)
Module SwordItems.

Import Breakable.

(** [getTilesWithinShape] yields tile objects or holes; a tile is its key
    [(tile.x, tile.y)] and its [index]. *)
Abbreviation TileRef := (option (TileKey * Z))%type.

(** The [for (const tile of tiles)] loop, with [checkedTiles] as a set. *)
Fixpoint process (now : Z) (tiles : list TileRef) (checkedTiles : gset TileKey)
  (s : Tiles) (fx : list Fx) : option (Tiles * list Fx) :=
  match tiles with
  | [] => Some (s, fx)
  | None :: ts => process now ts checkedTiles s fx
  | Some (tileKey, index) :: ts =>
      if index =? -1 then process now ts checkedTiles s fx
      else if bool_decide (tileKey ∈ checkedTiles) then process now ts checkedTiles s fx
      else
        let checked' := {[tileKey]} ∪ checkedTiles in
        match s.(breakableItems) !! tileKey with
        | Some _ =>
            match hitBreakableItem now tileKey s with
            | None => None
            | Some (s', fx') => process now ts checked' s' (fx ++ fx')
            end
        | None => process now ts checked' s fx
        end
  end.

(** [checkSwordItemCollisions()] for the player [p] at scene time [now];
    [tiles] is what [getTilesWithinShape] returns for the hitbox bounds. *)
Definition checkSwordItemCollisions (p : PlayerCtl.Knight) (now : Z)
  (tiles : list TileRef) (s : Tiles) : option (Tiles * list Fx) :=
  if negb p.(PlayerCtl.isAttacking) || negb p.(PlayerCtl.hitboxEnable)
  then Some (s, [])
  else process now tiles ∅ s [].

(** What may happen to one breakable record within a frame: nothing, one
    counted hit at [now], or removal by the hit that breaks it. *)
Definition advanced_once (now : Z) (o o' : option Item) : Prop :=
  match o, o' with
  | Some r, Some r' =>
      r' = r
      \/ (r'.(hits) = r.(hits) + 1 /\ r'.(tile) = r.(tile)
          /\ r'.(maxHits) = r.(maxHits) /\ r'.(lastHitTime) = now)
  | Some r, None => r.(maxHits) <= r.(hits) + 1
  | None, None => True
  | None, Some _ => False
  end.

(** The items layer at load time, one tile per cell. *)
Definition layer_of (tiles : list (TileKey * Z * bool)) : gmap TileKey Z :=
  list_to_map (map (fun t => (t.1.1, t.1.2)) tiles).

Definition init_tiles (tiles : list (TileKey * Z * bool)) : Tiles :=
  mkTiles (initBreakableItems tiles ∅) (layer_of tiles).

(** Every tracked record sits on a tile still present in the items layer,
    carries that tile's index, and has not reached its [maxHits] of 2. *)
Definition tiles_ok (s : Tiles) : Prop :=
  forall k r, s.(breakableItems) !! k = Some r ->
    s.(itemsLayer) !! k = Some r.(tile)
    /\ 0 <= r.(hits) < r.(maxHits) /\ r.(maxHits) = 2.

(** The states reached from the loaded map by the per-frame sword check. *)
Inductive reach (tiles0 : list (TileKey * Z * bool)) : Tiles -> Prop :=
| reach_load :
    NoDup (map (fun t => t.1.1) tiles0) -> reach tiles0 (init_tiles tiles0)
| reach_frame p now tiles s s' fx :
    reach tiles0 s ->
    checkSwordItemCollisions p now tiles s = Some (s', fx) ->
    reach tiles0 s'.

End SwordItems.

(** ** Session-wide bookkeeping of the wave director *)
Module WaveTotals.

Import Waves.

(** What a session keeps true: five waves, the wave counter in [1..6],
    the victory screen shown exactly once the counter passes [maxWaves],
    [1 + 2 + ... + min(currentWave, 5)] enemies spawned so far, distinct
    enemy ids, and live enemies or a pending timer only up to wave 5. *)
Definition session_inv (s : Wave) : Prop :=
  s.(maxWaves) = 5
  /\ 1 <= s.(currentWave) <= 6
  /\ s.(wonShown) = (if Z.eqb s.(currentWave) 6 then 1%nat else 0%nat)
  /\ 2 * Z.of_nat s.(nextId) = Z.min s.(currentWave) 5 * (Z.min s.(currentWave) 5 + 1)
  /\ List.NoDup s.(enemies)
  /\ (forall id, In id s.(enemies) -> (id < s.(nextId))%nat)
  /\ (s.(enemies) <> [] \/ s.(pending) <> [] -> s.(currentWave) <= 5).

End WaveTotals.

(** [GameScene.damagePlayer] wired to the [UI] class of src/utils/Debug.js
    (the [ui] field), with the flash and invincibility bookkeeping of the
    scene. *)
Module SceneHealth.

Record Scene := mkScene {
  ui : UI.UI;
  invincibilityTime : Z;       (** 1000 *)
  playerInvincible : bool;
  log : list Health.Fx
}.

(** [damagePlayer()]; [playerDeath()] is recorded as [DeathTween]. *)
Definition damagePlayer (s : Scene) : Scene :=
  if s.(playerInvincible) then s
  else
    let log1 := s.(log) ++ [Health.Shake 100] in
    let '(newHealth, ui1) := UI.damagePlayer 1 s.(ui) in
    if newHealth <=? 0 then
      mkScene ui1 s.(invincibilityTime) s.(playerInvincible)
        (log1 ++ [Health.DeathTween])
    else
      mkScene ui1 s.(invincibilityTime) true
        (log1 ++ [Health.PlayerAlphaHalf; Health.FlashInterval 150 5;
                  Health.After s.(invincibilityTime) Health.ResetInvincible]).

(** The [delayedCall(invincibilityTime, ...)] callback firing. *)
Definition resetInvincible (s : Scene) : Scene :=
  mkScene s.(ui) s.(invincibilityTime) false s.(log).

(** [n] enemy contacts, each one after the invincibility has run out. *)
Fixpoint hits (n : nat) (s : Scene) : Scene :=
  match n with
  | O => s
  | S n' => hits n' (resetInvincible (damagePlayer s))
  end.

(** [n] enemy contacts with no timer firing in between. *)
Fixpoint contacts (n : nat) (s : Scene) : Scene :=
  match n with
  | O => s
  | S n' => contacts n' (damagePlayer s)
  end.

Definition is_death (f : Health.Fx) : bool :=
  match f with Health.DeathTween => true | _ => false end.

(** How many times [playerDeath()] was called. *)
Definition deaths (l : list Health.Fx) : nat := length (List.filter is_death l).

End SceneHealth.

Module EnemyHits.

Import Combat.

(** The hit counter of an enemy built by the constructor
    ([hitsToKill = 3]), as [takeDamage] keeps it. *)
Definition kill_inv (e : Enemy) : Prop :=
  e.(hitsToKill) = 3 /\ 0 <= e.(hitsTaken) <= 3
  /\ e.(isDying) = (e.(hitsTaken) =? 3)
  /\ (e.(isDying) = true -> e.(bodyEnable) = false).

End EnemyHits.

(** * Properties *)

Import Combat.

(** ** Enemy damage intake *)

Lemma takeDamage_cases (t dmg : Z) (e : Enemy) :
  takeDamage t dmg e = (false, e, [])
  \/ (e.(isDying) = false /\ e.(hitCooldown) <= t - e.(lastHitTime)
      /\ exists k fx, takeDamage t dmg e =
         (k, mkEnemy e.(ex) e.(ey) e.(vx) e.(vy)
               (if e.(hitsToKill) <=? e.(hitsTaken) + 1 then false else e.(bodyEnable))
               e.(tint) e.(stunned) e.(hitsToKill) (e.(hitsTaken) + 1) t
               e.(hitCooldown) (e.(hitsToKill) <=? e.(hitsTaken) + 1), fx)).
Proof.
  unfold takeDamage. destruct (isDying e) eqn:Hd; [left; reflexivity|].
  destruct (t - lastHitTime e <? hitCooldown e) eqn:Hc; [left; reflexivity|].
  right. apply Z.ltb_ge in Hc. split; [reflexivity|]. split; [exact Hc|].
  simpl. destruct (hitsToKill e <=? hitsTaken e + 1); eauto.
Qed.

Lemma takeDamage_keeps (t dmg : Z) (e : Enemy) :
  let e' := (takeDamage t dmg e).1.2 in
  e'.(hitCooldown) = e.(hitCooldown) /\ e'.(hitsToKill) = e.(hitsToKill)
  /\ e'.(vx) = e.(vx) /\ e'.(vy) = e.(vy)
  /\ e'.(stunned) = e.(stunned) /\ e'.(tint) = e.(tint)
  /\ (e.(isDying) = true -> e'.(isDying) = true).
Proof.
  destruct (takeDamage_cases t dmg e) as [H | (Hd & _ & k & fx & H)];
    rewrite H; simpl; repeat split; auto; congruence.
Qed.

Lemma takeDamage_seq_cooldown (times : list Z) (dmg : Z) (e : Enemy) :
  (takeDamage_seq times dmg e).2.(hitCooldown) = e.(hitCooldown).
Proof.
  revert e. induction times as [|t ts IH]; intros e; simpl; [reflexivity|].
  destruct (takeDamage t dmg e) as [[k e1] fx] eqn:He.
  destruct (takeDamage_seq ts dmg e1) as [ks e2] eqn:Hs. simpl.
  pose proof (IH e1) as IH1. rewrite Hs in IH1. simpl in IH1. rewrite IH1.
  pose proof (takeDamage_keeps t dmg e) as (Hk & _). rewrite He in Hk. exact Hk.
Qed.

(** C1. Along every sequence of [takeDamage] calls on an enemy built by
    the constructor, the next call at time [t] increments the hit
    counter exactly when the enemy is not dying and at least 500ms
    have passed since [lastHitTime], the time of the last accepted hit;
    on a dying enemy the call returns [false] and changes nothing;
    after an accepted hit at [t], a call at [t + 100] is rejected and,
    unless that hit killed the enemy, a call at [t + 600] is accepted. *)
Theorem C1_takeDamage_cooldown (times : list Z) (dmg : Z) (x y : R) (t : Z) :
  let e := (takeDamage_seq times dmg (new_enemy x y)).2 in
  let '(killed, e1, _) := takeDamage t dmg e in
  let accepted := negb e.(isDying) && (500 <=? t - e.(lastHitTime)) in
  e1.(hitsTaken) = e.(hitsTaken) + (if accepted then 1 else 0)
  /\ (e.(isDying) = true -> killed = false /\ e1 = e)
  /\ (accepted = true ->
        takeDamage (t + 100) dmg e1 = (false, e1, [])
        /\ (e1.(isDying) = false ->
            (takeDamage (t + 600) dmg e1).1.2.(hitsTaken) = e1.(hitsTaken) + 1)).
Proof.
  intros e.
  assert (Hcd : e.(hitCooldown) = 500)
    by (unfold e; rewrite takeDamage_seq_cooldown; reflexivity).
  destruct (takeDamage_cases t dmg e) as [H | (Hd & Hc & k & fx & H)];
    rewrite H.
  - (* rejected *)
    unfold takeDamage in H.
    destruct (isDying e) eqn:Hd.
    + simpl. repeat split; try discriminate; auto; lia.
    + destruct (t - lastHitTime e <? hitCooldown e) eqn:Hc.
      * apply Z.ltb_lt in Hc. rewrite Hcd in Hc.
        assert (Hn : (500 <=? t - lastHitTime e) = false) by (apply Z.leb_gt; lia).
        simpl. rewrite Hn. repeat split; try discriminate; lia.
      * exfalso. apply Z.ltb_ge in Hc. simpl in H.
        destruct (hitsToKill e <=? hitsTaken e + 1); simpl in H;
          [discriminate|].
        injection H as He. apply (f_equal hitsTaken) in He. simpl in He. lia.
  - rewrite Hcd in Hc. rewrite Hd.
    assert (Ha : (500 <=? t - lastHitTime e) = true) by (apply Z.leb_le; lia).
    simpl. rewrite Ha.
    split; [reflexivity|]. split; [intros; congruence|]. intros _. split.
    + unfold takeDamage at 1. simpl.
      destruct (hitsToKill e <=? hitsTaken e + 1); simpl; [reflexivity|].
      replace (t + 100 - t <? hitCooldown e) with true
        by (symmetry; apply Z.ltb_lt; lia). reflexivity.
    + intros Hd1. simpl in Hd1.
      destruct (takeDamage_cases (t + 600) dmg
        (mkEnemy (ex e) (ey e) (vx e) (vy e)
          (if hitsToKill e <=? hitsTaken e + 1 then false else bodyEnable e)
          (tint e) (stunned e) (hitsToKill e) (hitsTaken e + 1) t
          (hitCooldown e) (hitsToKill e <=? hitsTaken e + 1)))
        as [H2 | (_ & Hc2 & k2 & fx2 & H2)].
      * exfalso. unfold takeDamage in H2. simpl in H2. rewrite Hd1 in H2.
        replace (t + 600 - t <? hitCooldown e) with false in H2
          by (symmetry; apply Z.ltb_ge; lia).
        simpl in H2.
        destruct (hitsToKill e <=? hitsTaken e + 1 + 1); simpl in H2;
          [discriminate|].
        injection H2; intros; lia.
      * rewrite H2. reflexivity.
Qed.

(** ** Sword hits *)

Lemma hitEnemy_attacking (p : Player) (t : Z) (e : Enemy) :
  p.(isAttacking) = true ->
  let '(kx, ky) := knockback_of p.(attackDirection) p.(knockbackForce) in
  let e1 := set_velocity e kx ky in
  let '(e2, fx1) :=
    if negb e1.(stunned) then (set_stunned e1 true, [DelayedCall 500 ClearStun])
    else (e1, []) in
  let e3 := set_tint e2 (Some 16711680) in
  let '(_, e4, fx3) := takeDamage t p.(attackDamage) e3 in
  hitEnemy p t e = (true, e4, fx1 ++ [DelayedCall 150 ClearTint] ++ fx3).
Proof.
  intros Ha. unfold hitEnemy. rewrite Ha. simpl.
  destruct (knockback_of (attackDirection p) (knockbackForce p)) as [kx ky].
  destruct (negb (stunned e)); simpl;
    match goal with
    | |- context [takeDamage ?a ?b ?c] => destruct (takeDamage a b c) as [[k e4] fx3]
    end; reflexivity.
Qed.

Lemma hitEnemy_velocity (p : Player) (t : Z) (e : Enemy) :
  p.(isAttacking) = true ->
  let e' := (hitEnemy p t e).1.2 in
  (e'.(vx), e'.(vy)) = knockback_of p.(attackDirection) p.(knockbackForce).
Proof.
  intros Ha. unfold hitEnemy. rewrite Ha. simpl.
  destruct (knockback_of (attackDirection p) (knockbackForce p)) as [kx ky].
  destruct (negb (stunned e)); simpl;
    match goal with
    | |- context [takeDamage ?a ?b ?c] =>
        pose proof (takeDamage_keeps a b c) as (_ & _ & Hx & Hy & _);
        destruct (takeDamage a b c) as [[k e4] fx3]
    end; simpl in *; rewrite Hx, Hy; reflexivity.
Qed.

(** C4. When the player is attacking with the knockback force set by
    its constructor (200), a sword hit sets the enemy's velocity to 200
    along the attack's cardinal axis, whatever the enemy's position: one
    component is 0 and the other is +-200, and attacking up gives
    [(0, -200)]. *)
Theorem C4_knockback_cardinal (p : Player) (t : Z) (e : Enemy) :
  p.(isAttacking) = true -> p.(knockbackForce) = 200%R ->
  let e' := (hitEnemy p t e).1.2 in
  (e'.(vx), e'.(vy)) = knockback_of p.(attackDirection) 200
  /\ ((e'.(vx) = 0%R /\ Rabs e'.(vy) = 200%R)
      \/ (e'.(vy) = 0%R /\ Rabs e'.(vx) = 200%R))
  /\ (p.(attackDirection) = DUp -> e'.(vx) = 0%R /\ e'.(vy) = (-200)%R).
Proof.
  intros Ha Hf e'.
  pose proof (hitEnemy_velocity p t e Ha) as Hv. rewrite Hf in Hv.
  fold e' in Hv. rewrite Hv. split; [reflexivity|].
  destruct (attackDirection p); simpl in Hv |- *; injection Hv as Hx Hy;
    (split; [| intros Hd; try discriminate; split; lra]).
  - right. split; [lra|]. rewrite Hx, Rabs_Ropp, Rabs_pos_eq; lra.
  - right. split; [lra|]. rewrite Hx, Rabs_pos_eq; lra.
  - left. split; [lra|]. rewrite Hy, Rabs_Ropp, Rabs_pos_eq; lra.
  - left. split; [lra|]. rewrite Hy, Rabs_pos_eq; lra.
Qed.

(** C10. [hitEnemy] is a no-op returning [false] when the player is not
    attacking.  When the player is attacking it reports a hit ([true])
    in every case: it sets the knockback velocity, leaves the enemy
    stunned (registering the 500ms stun clear only if the enemy was not
    stunned yet), tints it and registers the 150ms tint clear, even
    when [takeDamage] rejects the hit because the enemy is dying or
    inside its hit cooldown (the hit counter then does not move). *)
Theorem C10_hitEnemy_reports_hit (p : Player) (t : Z) (e : Enemy) :
  (p.(isAttacking) = false -> hitEnemy p t e = (false, e, []))
  /\ (p.(isAttacking) = true ->
      let '(r, e', fx) := hitEnemy p t e in
      r = true
      /\ (e'.(vx), e'.(vy)) = knockback_of p.(attackDirection) p.(knockbackForce)
      /\ e'.(stunned) = true
      /\ e'.(tint) = Some 16711680
      /\ In (DelayedCall 150 ClearTint) fx
      /\ (e.(stunned) = false -> In (DelayedCall 500 ClearStun) fx)
      /\ (e.(isDying) = true \/ t - e.(lastHitTime) < e.(hitCooldown) ->
          e'.(hitsTaken) = e.(hitsTaken))).
Proof.
  split.
  - intros Ha. unfold hitEnemy. rewrite Ha. reflexivity.
  - intros Ha. pose proof (hitEnemy_velocity p t e Ha) as Hv.
    revert Hv. unfold hitEnemy. rewrite Ha. simpl.
    destruct (knockback_of (attackDirection p) (knockbackForce p)) as [kx ky].
    destruct (stunned e) eqn:Hs; simpl;
      match goal with
      | |- context [takeDamage ?a ?b ?c] =>
          pose proof (takeDamage_keeps a b c) as (_ & _ & _ & _ & Hst & Htn & _);
          pose proof (takeDamage_cases a b c) as Hcase;
          destruct (takeDamage a b c) as [[k e4] fx3]
      end; simpl in *; intros Hv;
      (split; [reflexivity|]); (split; [exact Hv|]);
      (split; [congruence|]); (split; [congruence|]);
      (split; [rewrite ?in_app_iff; simpl; tauto|]);
      (split; [intros H; try discriminate; simpl; tauto|]);
      intros Hrej; destruct Hcase as [Hc | (Hd & Hc & k' & fx' & Hc')];
      try (injection Hc; intros; subst; reflexivity);
      exfalso; destruct Hrej; simpl in *; first [congruence | lia].
Qed.

(** ** Enemy construction *)

Import EnemyCtor.

(** C9. [new Enemy(scene, x, y, config)] throws when [config] is absent,
    when its [texture] is missing (or any falsy value), or when its
    [anims] is missing (or falsy); it does not throw when both are
    present (truthy). *)
Theorem C9_constructor_validation (x y : R) :
  throws (construct x y None) = true
  /\ (forall c, c.(texture) = JS.Undefined -> throws (construct x y (Some c)) = true)
  /\ (forall c, c.(anims) = JS.Undefined -> throws (construct x y (Some c)) = true)
  /\ (forall c, JS.truthy c.(texture) = false -> throws (construct x y (Some c)) = true)
  /\ (forall c, JS.truthy c.(anims) = false -> throws (construct x y (Some c)) = true)
  /\ (forall c, JS.truthy c.(texture) = true -> JS.truthy c.(anims) = true ->
        throws (construct x y (Some c)) = false).
Proof.
  assert (Ht : forall c, JS.truthy c.(texture) = false ->
                 throws (construct x y (Some c)) = true)
    by (intros c H; unfold construct; rewrite H; reflexivity).
  assert (Ha : forall c, JS.truthy c.(anims) = false ->
                 throws (construct x y (Some c)) = true).
  { intros c H; unfold construct; rewrite H.
    destruct (JS.truthy (texture c)); reflexivity. }
  split; [reflexivity|].
  split; [intros c H; apply Ht; rewrite H; reflexivity|].
  split; [intros c H; apply Ha; rewrite H; reflexivity|].
  split; [exact Ht|]. split; [exact Ha|].
  intros c H1 H2. unfold construct. rewrite H1, H2. reflexivity.
Qed.

(** ** Breakable items *)

Lemma hitBreakableItem_debounced (s : Breakable.Tiles) (k : Z * Z)
  (item : Breakable.Item) (now : Z) :
  s.(Breakable.breakableItems) !! k = Some item ->
  item.(Breakable.lastHitTime) <> 0 ->
  now - item.(Breakable.lastHitTime) < 500 ->
  Breakable.hitBreakableItem now k s = Some (s, []).
Proof.
  intros Hk H0 Hlt. unfold Breakable.hitBreakableItem. rewrite Hk.
  replace (Breakable.lastHitTime item =? 0) with false
    by (symmetry; apply Z.eqb_neq; exact H0).
  replace (now - Breakable.lastHitTime item <? 500) with true
    by (symmetry; apply Z.ltb_lt; exact Hlt).
  reflexivity.
Qed.

Lemma hitBreakableItem_first (s : Breakable.Tiles) (k : Z * Z) (idx t1 : Z) :
  s.(Breakable.breakableItems) !! k = Some (Breakable.mkItem idx 0 2 0) ->
  Breakable.hitBreakableItem t1 k s =
  Some (Breakable.mkTiles
          (<[k := Breakable.mkItem idx 1 2 t1]> s.(Breakable.breakableItems))
          s.(Breakable.itemsLayer),
        [Breakable.TintTile k; Breakable.RestoreTintAfter 100 k; Breakable.Shake 100]).
Proof. intros Hk. unfold Breakable.hitBreakableItem. rewrite Hk. reflexivity. Qed.

(** C3. A hit on a tracked tile less than 500ms after its last accepted
    hit (recorded at a non-zero scene time) changes nothing.  For a
    freshly initialised record ([hits = 0], [maxHits = 2],
    [lastHitTime = 0]) hit at scene time [t1 > 0]: a second hit before
    [t1 + 500] (for instance at [t1 + 200]) leaves exactly one accepted
    hit on record and the tile in place, while a second hit more than
    500ms later removes both the record and the tile. *)
Theorem C3_breakable_debounce (s : Breakable.Tiles) (k : Z * Z) (idx t1 t2 : Z) :
  s.(Breakable.breakableItems) !! k = Some (Breakable.mkItem idx 0 2 0) ->
  0 < t1 ->
  (forall (s' : Breakable.Tiles) (k' : Z * Z) (item : Breakable.Item) (now : Z),
      s'.(Breakable.breakableItems) !! k' = Some item ->
      item.(Breakable.lastHitTime) <> 0 ->
      now - item.(Breakable.lastHitTime) < 500 ->
      Breakable.hitBreakableItem now k' s' = Some (s', []))
  /\ (t2 < t1 + 500 ->
      exists s2, Breakable.hit_twice t1 t2 k s = Some s2
        /\ s2.(Breakable.breakableItems) !! k = Some (Breakable.mkItem idx 1 2 t1)
        /\ s2.(Breakable.itemsLayer) = s.(Breakable.itemsLayer))
  /\ (t1 + 500 < t2 ->
      exists s2, Breakable.hit_twice t1 t2 k s = Some s2
        /\ s2.(Breakable.breakableItems) !! k = None
        /\ s2.(Breakable.itemsLayer) !! k = None).
Proof.
  intros Hk Ht1.
  split; [exact hitBreakableItem_debounced|].
  unfold Breakable.hit_twice. rewrite (hitBreakableItem_first s k idx t1 Hk).
  unfold Breakable.hitBreakableItem. simpl.
  rewrite lookup_insert_eq. simpl.
  replace (t1 =? 0) with false by (symmetry; apply Z.eqb_neq; lia). simpl.
  split.
  - intros H2. replace (t2 - t1 <? 500) with true by (symmetry; apply Z.ltb_lt; lia).
    eexists; split; [reflexivity|]. simpl. split; [|reflexivity].
    apply lookup_insert_eq.
  - intros H2. replace (t2 - t1 <? 500) with false by (symmetry; apply Z.ltb_ge; lia).
    simpl. eexists; split; [reflexivity|]. simpl.
    split; apply lookup_delete_eq.
Qed.

(** ** Waves *)

Lemma spawn_loop_spec (n : nat) (s : Waves.Wave) :
  let s' := Waves.spawn_loop n s in
  s'.(Waves.enemies) = s.(Waves.enemies) ++ seq s.(Waves.nextId) n
  /\ s'.(Waves.nextId) = (s.(Waves.nextId) + n)%nat
  /\ s'.(Waves.currentWave) = s.(Waves.currentWave)
  /\ s'.(Waves.maxWaves) = s.(Waves.maxWaves)
  /\ s'.(Waves.now) = s.(Waves.now)
  /\ s'.(Waves.pending) = s.(Waves.pending)
  /\ s'.(Waves.wonShown) = s.(Waves.wonShown).
Proof.
  revert s. induction n as [|n IH]; intros s; simpl.
  - rewrite app_nil_r, Nat.add_0_r. repeat split.
  - destruct (IH (Waves.spawnEnemy s)) as (H1 & H2 & H3 & H4 & H5 & H6 & H7).
    simpl in *. rewrite H1, H2, H3, H4, H5, H6, H7.
    rewrite <- app_assoc. simpl. repeat split. lia.
Qed.

Lemma startNextWave_keeps (s : Waves.Wave) :
  let s' := Waves.startNextWave s in
  s'.(Waves.now) = s.(Waves.now) /\ s'.(Waves.pending) = s.(Waves.pending)
  /\ s'.(Waves.maxWaves) = s.(Waves.maxWaves).
Proof.
  unfold Waves.startNextWave. simpl.
  destruct (Waves.maxWaves s <? Waves.currentWave s + 1); simpl.
  - repeat split.
  - destruct (spawn_loop_spec (Z.to_nat (Waves.currentWave s + 1))
      (Waves.set_wave s (Waves.currentWave s + 1))) as (_ & _ & _ & H4 & H5 & H6 & _).
    rewrite H4, H5, H6. repeat split.
Qed.

(** C2. [startNextWave()] increments the wave counter; while the new
    wave number [w] does not exceed [maxWaves] it appends exactly [w]
    fresh enemies to [this.enemies], otherwise it shows the victory
    message and spawns nothing (so every later call spawns nothing
    either).  Concretely, the call made by [create()] (wave 0) spawns
    one enemy, the call run 1000ms after that enemy is destroyed spawns
    two, and with [maxWaves = 5] the call made after wave 5 spawns none. *)
Theorem C2_startNextWave_spawns (s : Waves.Wave) (t0 : Z) :
  (let s' := Waves.startNextWave s in
   s'.(Waves.currentWave) = s.(Waves.currentWave) + 1
   /\ (s.(Waves.currentWave) + 1 <= s.(Waves.maxWaves) ->
       s'.(Waves.enemies) = s.(Waves.enemies)
                          ++ seq s.(Waves.nextId) (Z.to_nat (s.(Waves.currentWave) + 1))
       /\ s'.(Waves.wonShown) = s.(Waves.wonShown))
   /\ (s.(Waves.maxWaves) < s.(Waves.currentWave) + 1 ->
       s'.(Waves.enemies) = s.(Waves.enemies)
       /\ s'.(Waves.wonShown) = S s.(Waves.wonShown)))
  /\ (Waves.after_create t0).(Waves.enemies) = [0%nat]
  /\ (Waves.startNextWave (Waves.with_pending
        (Waves.advance 1000 (Waves.onDestroy 0 (Waves.after_create t0))) []))
       .(Waves.enemies) = [1%nat; 2%nat]
  /\ (s.(Waves.currentWave) = 5 -> s.(Waves.maxWaves) = 5 ->
      (Waves.startNextWave s).(Waves.enemies) = s.(Waves.enemies)
      /\ (Waves.startNextWave s).(Waves.wonShown) = S s.(Waves.wonShown)).
Proof.
  assert (Hgen : let s' := Waves.startNextWave s in
   s'.(Waves.currentWave) = s.(Waves.currentWave) + 1
   /\ (s.(Waves.currentWave) + 1 <= s.(Waves.maxWaves) ->
       s'.(Waves.enemies) = s.(Waves.enemies)
                          ++ seq s.(Waves.nextId) (Z.to_nat (s.(Waves.currentWave) + 1))
       /\ s'.(Waves.wonShown) = s.(Waves.wonShown))
   /\ (s.(Waves.maxWaves) < s.(Waves.currentWave) + 1 ->
       s'.(Waves.enemies) = s.(Waves.enemies)
       /\ s'.(Waves.wonShown) = S s.(Waves.wonShown))).
  { unfold Waves.startNextWave. simpl.
    destruct (Waves.maxWaves s <? Waves.currentWave s + 1) eqn:Hm.
    - apply Z.ltb_lt in Hm. simpl. split; [reflexivity|].
      split; [intros; lia|]. intros _. split; reflexivity.
    - apply Z.ltb_ge in Hm.
      destruct (spawn_loop_spec (Z.to_nat (Waves.currentWave s + 1))
        (Waves.set_wave s (Waves.currentWave s + 1)))
        as (H1 & _ & H3 & _ & _ & _ & H7).
      simpl in *. rewrite H1, H3, H7.
      split; [reflexivity|]. split; [intros _; split; reflexivity|]. intros; lia. }
  split; [exact Hgen|].
  split; [reflexivity|]. split; [reflexivity|].
  intros Hw Hm. destruct Hgen as (_ & _ & H). apply H. lia.
Qed.

Lemma wave_inv_step (s s' : Waves.Wave) :
  Waves.wave_inv s -> Waves.step s s' -> Waves.wave_inv s'.
Proof.
  intros [Hp Hl] Hs. destruct Hs as [s id Hin | s dt Hdt | s l1 t l2 Hpend Hdue].
  - assert (H0 : Waves.pending s = []).
    { destruct (Waves.pending s) as [|t ts] eqn:E; [reflexivity|].
      exfalso. destruct (Hp t) as (He & _); [left; reflexivity|].
      rewrite He in Hin. exact Hin. }
    unfold Waves.onDestroy.
    destruct (List.filter (fun e => negb (Nat.eqb e id)) (Waves.enemies s)) eqn:Ef;
      split; simpl; rewrite H0; simpl.
    + intros t [<- | []]. simpl. split; [reflexivity|]. split; [reflexivity|]. lia.
    + lia.
    + intros t [].
    + lia.
  - split; simpl; [|exact Hl].
    intros t Ht. destruct (Hp t Ht) as (H1 & H2 & H3). repeat split; auto. lia.
  - destruct (startNextWave_keeps (Waves.with_pending s (l1 ++ l2))) as (_ & Hpe & _).
    assert (Hnil : l1 ++ l2 = []).
    { rewrite Hpend, length_app in Hl. simpl in Hl.
      destruct l1, l2; simpl in *; try lia; reflexivity. }
    split; rewrite Hpe; simpl; rewrite Hnil; [intros t' []|simpl; lia].
Qed.

Lemma wave_inv_reachable (s : Waves.Wave) :
  Waves.reachable s -> Waves.wave_inv s.
Proof.
  induction 1 as [t0 | s s' _ IH Hs].
  - unfold Waves.after_create.
    destruct (startNextWave_keeps (Waves.before_create t0)) as (_ & Hpe & _).
    split; rewrite Hpe; simpl; [intros t []|lia].
  - exact (wave_inv_step s s' IH Hs).
Qed.

(** C7. In every reachable state of a session, when a pending delayed
    call is due and runs [startNextWave()], [this.enemies] is empty
    (every enemy of the current wave has been removed by its [destroy]
    handler), the call was registered with a 1000ms delay and at least
    1000ms have passed since it was registered, and it is the only
    pending call.  The call made by [create()] also sees an empty list,
    and each [destroy] handler removes its enemy from the list. *)
Theorem C7_next_wave_needs_empty_roster (s : Waves.Wave)
  (l1 l2 : list Waves.Timer) (t : Waves.Timer) :
  Waves.reachable s ->
  s.(Waves.pending) = l1 ++ t :: l2 ->
  t.(Waves.scheduledAt) + t.(Waves.delay) <= s.(Waves.now) ->
  s.(Waves.enemies) = [] /\ t.(Waves.delay) = 1000
  /\ t.(Waves.scheduledAt) + 1000 <= s.(Waves.now)
  /\ l1 = [] /\ l2 = []
  /\ (forall t0, (Waves.before_create t0).(Waves.enemies) = [])
  /\ (forall (s0 : Waves.Wave) (id : nat),
        ~ In id (Waves.onDestroy id s0).(Waves.enemies)).
Proof.
  intros Hr Hpend Hdue.
  destruct (wave_inv_reachable s Hr) as [Hp Hl].
  destruct (Hp t) as (He & Hd & Hs); [rewrite Hpend; apply in_or_app; right; left; reflexivity|].
  assert (Hnil : l1 = [] /\ l2 = []).
  { rewrite Hpend, length_app in Hl. simpl in Hl.
    destruct l1, l2; simpl in *; try lia; split; reflexivity. }
  split; [exact He|]. split; [exact Hd|]. split; [lia|].
  split; [apply Hnil|]. split; [apply Hnil|]. split; [reflexivity|].
  intros s0 id Hin. unfold Waves.onDestroy in Hin.
  assert (Hf : In id (List.filter (fun e => negb (Nat.eqb e id)) (Waves.enemies s0))).
  { destruct (List.filter (fun e => negb (Nat.eqb e id)) (Waves.enemies s0)); exact Hin. }
  apply filter_In in Hf. destruct Hf as [_ Hf]. rewrite Nat.eqb_refl in Hf. discriminate.
Qed.

(** ** Player health and enemy contact *)

Lemma updateHealth_fields (health : Z) (u : UI.UI) :
  let cur := Z.max 0 (Z.min health u.(UI.maxHealth)) in
  (UI.updateHealth health u).(UI.currentHealth) = cur
  /\ (UI.updateHealth health u).(UI.maxHealth) = u.(UI.maxHealth)
  /\ (UI.updateHealth health u).(UI.isPaused) = u.(UI.isPaused).
Proof.
  unfold UI.updateHealth, UI.startHeartPulse, UI.stopHeartPulse. simpl.
  destruct (_ =? 1); simpl.
  - destruct (negb _ && _); simpl; auto.
  - destruct (UI.heartPulseTween u); simpl; auto.
Qed.

(** C5. While [playerInvincible] is set, [damagePlayer()] leaves the
    scene unchanged (so the UI's health too).  Otherwise the UI takes one
    heart ([UI.damagePlayer(1)]) and returns [newHealth = health - 1];
    if that is positive the player becomes invincible and the reset is
    scheduled [invincibilityTime] = 1000ms later (and clears the flag
    when it runs); if it is 0 or less the death sequence starts, the
    UI's health is 0 and no invincibility is set up. *)
Theorem C5_damagePlayer_invincibility (s : Health.Scene) :
  s.(Health.invincibilityTime) = 1000 ->
  let newHealth := s.(Health.ui).(UI.currentHealth) - 1 in
  (s.(Health.playerInvincible) = true -> Health.damagePlayer s = s)
  /\ (s.(Health.playerInvincible) = false -> 0 < newHealth ->
      let s' := Health.damagePlayer s in
      s'.(Health.ui) = (UI.damagePlayer 1 s.(Health.ui)).2
      /\ s'.(Health.ui).(UI.currentHealth)
         = Z.max 0 (Z.min newHealth s.(Health.ui).(UI.maxHealth))
      /\ s'.(Health.playerInvincible) = true
      /\ s'.(Health.log) = s.(Health.log) ++
           [Health.Shake 100; Health.Shake 200; Health.PlayerAlphaHalf;
            Health.FlashInterval 150 5; Health.After 1000 Health.ResetInvincible]
      /\ (Health.run_action Health.ResetInvincible s').(Health.playerInvincible) = false)
  /\ (s.(Health.playerInvincible) = false -> newHealth <= 0 ->
      let s' := Health.damagePlayer s in
      s'.(Health.ui) = (UI.damagePlayer 1 s.(Health.ui)).2
      /\ s'.(Health.ui).(UI.currentHealth) = 0
      /\ s'.(Health.playerInvincible) = false
      /\ s'.(Health.log) = s.(Health.log) ++
           [Health.Shake 100; Health.Shake 200; Health.DeathTween]).
Proof.
  intros Ht newHealth.
  destruct (updateHealth_fields (UI.currentHealth (Health.ui s) - 1) (Health.ui s))
    as (Hc & _ & _).
  split; [intros Hi; unfold Health.damagePlayer; rewrite Hi; reflexivity|].
  split.
  - intros Hi Hh. unfold Health.damagePlayer. rewrite Hi. cbn.
    replace (UI.currentHealth (Health.ui s) - 1 <=? 0)
      with false by (symmetry; apply Z.leb_gt; exact Hh).
    cbn. rewrite Ht, <- !app_assoc. repeat split. exact Hc.
  - intros Hi Hh. unfold Health.damagePlayer. rewrite Hi. cbn.
    replace (UI.currentHealth (Health.ui s) - 1 <=? 0)
      with true by (symmetry; apply Z.leb_le; exact Hh).
    cbn. rewrite <- !app_assoc. repeat split.
    + rewrite Hc. unfold newHealth in Hh. lia.
    + exact Hi.
Qed.

(** Counterexample to C8: an invincible player touched by an enemy is
    still knocked back and the contact effects are still produced. *)
Lemma C8_counterexample :
  let s0 := Health.mkScene (UI.new_UI 5) 1000 true false 0 0 0 0 [] in
  s0.(Health.playerInvincible) = true
  /\ (Health.playerHit 10 0 s0).(Health.isKnockedBack) = true
  /\ (Health.playerHit 10 0 s0).(Health.log) <> s0.(Health.log).
Proof. simpl. split; [reflexivity|]. split; [reflexivity|]. discriminate. Qed.

(** C8 (as the code does it).  While [playerInvincible] is set, the
    enemy-contact callback [playerHit] still tints the player (cleared
    after 100ms), knocks it back at speed 300 along the angle from the
    enemy to the player (ending after 300ms) and spawns the hit effect;
    only [damagePlayer()] does nothing, so the UI (and the health it
    holds) and the invincibility flag are unchanged. *)
Theorem C8_playerHit_while_invincible (s : Health.Scene) (enemyX enemyY : R) :
  s.(Health.playerInvincible) = true ->
  let a := Health.angle_between enemyX enemyY s.(Health.px) s.(Health.py) in
  let s' := Health.playerHit enemyX enemyY s in
  s'.(Health.ui) = s.(Health.ui)
  /\ s'.(Health.playerInvincible) = true
  /\ s'.(Health.isKnockedBack) = true
  /\ s'.(Health.pvx) = (cos a * 300)%R /\ s'.(Health.pvy) = (sin a * 300)%R
  /\ s'.(Health.log) = s.(Health.log) ++
       [Health.PlayerTintRed; Health.After 100 Health.ClearPlayerTint;
        Health.After 300 Health.EndKnockback;
        Health.HitEffect (s.(Health.px) - cos a * 10) (s.(Health.py) - sin a * 10)]%R.
Proof.
  intros Hi. unfold Health.playerHit, Health.damagePlayer. simpl. rewrite Hi.
  simpl. rewrite <- !app_assoc. repeat split; assumption.
Qed.

(** ** Spawn-point search *)

Section SpawnSearch.

Variable m : Spawn.Map.
Variable rnd : nat -> R.
Variables playerX playerY : R.

Abbreviation search := (Spawn.search m rnd playerX playerY).

Lemma search_attempts_le (fuel k attempts : nat) xy v :
  (attempts <= 50)%nat ->
  ((search fuel k attempts xy v).1.1.2 <= 50)%nat.
Proof.
  revert k attempts xy v. induction fuel as [|f IH]; intros k attempts xy v Ha;
    simpl; [exact Ha|].
  destruct (negb v && Nat.ltb attempts 50) eqn:E; simpl; [|exact Ha].
  apply andb_prop in E as [_ E]. apply Nat.ltb_lt in E. apply IH. lia.
Qed.

Lemma search_defined (fuel k attempts : nat) xy v :
  (v = true -> xy <> None) ->
  (search fuel k attempts xy v).2 = true -> (search fuel k attempts xy v).1.2 <> None.
Proof.
  revert k attempts xy v. induction fuel as [|f IH]; intros k attempts xy v Hv;
    simpl; [exact Hv|].
  destruct (negb v && Nat.ltb attempts 50); simpl; [|exact Hv].
  apply IH. intros _. discriminate.
Qed.

Lemma search_all_invalid (n fuel k attempts : nat) xy :
  (n <= fuel)%nat -> (attempts + n = 50)%nat ->
  (forall i, (i < n)%nat ->
     Spawn.valid_position m playerX playerY
       (Spawn.Between (rnd (k + 2 * i)%nat) 50 (Spawn.widthInPixels m - 50))
       (Spawn.Between (rnd (S (k + 2 * i))) 50 (Spawn.heightInPixels m - 50)) = false) ->
  exists xy', search fuel k attempts xy false = ((k + 2 * n)%nat, 50%nat, xy', false).
Proof.
  revert fuel k attempts xy. induction n as [|n IH]; intros fuel k attempts xy Hf Ha Hi.
  - rewrite Nat.add_0_r in Ha. subst attempts. rewrite Nat.add_0_r.
    destruct fuel; simpl; eauto.
  - destruct fuel as [|f]; [lia|]. simpl.
    replace (Nat.ltb attempts 50) with true by (symmetry; apply Nat.ltb_lt; lia).
    simpl.
    pose proof (Hi 0%nat ltac:(lia)) as H0.
    replace (k + 2 * 0)%nat with k in H0 by lia. rewrite H0.
    destruct (IH f (S (S k)) (S attempts) (Some
      (Spawn.Between (rnd k) 50 (Spawn.widthInPixels m - 50),
       Spawn.Between (rnd (S k)) 50 (Spawn.heightInPixels m - 50))))
      as [xy' Hxy']; [lia | lia | |].
    + intros i Hlt. pose proof (Hi (S i) ltac:(lia)) as HS.
      replace (S (S k) + 2 * i)%nat with (k + 2 * S i)%nat by lia. exact HS.
    + exists xy'. rewrite Hxy'. f_equal. f_equal. f_equal. lia.
Qed.

End SpawnSearch.

Lemma fallback_distance (px py a : R) :
  Spawn.distance (px + cos a * 150) (py + sin a * 150) px py = 150%R.
Proof.
  unfold Spawn.distance.
  replace ((px + cos a * 150 - px) * (px + cos a * 150 - px)
           + (py + sin a * 150 - py) * (py + sin a * 150 - py))%R
    with (150 * 150 * (Rsqr (sin a) + Rsqr (cos a)))%R by (unfold Rsqr; ring).
  rewrite sin2_cos2, Rmult_1_r. apply sqrt_square. lra.
Qed.

(** C6. [getValidSpawnPoint()] makes at most 50 attempts and always
    returns a point whose [x] and [y] are both defined.  When all 50
    candidates drawn are rejected, it makes exactly 50 attempts and
    returns the fallback point at angle [Math.random() * 2 * PI] (the
    draw following the 100 coordinate draws), at distance exactly 150
    from the player. *)
Theorem C6_spawn_point_total (m : Spawn.Map) (rnd : nat -> R) (k0 : nat)
  (px py : R) :
  let '(attempts, (ox, oy)) := Spawn.getValidSpawnPoint_run m rnd k0 px py in
  (attempts <= 50)%nat
  /\ (exists x y, ox = Some x /\ oy = Some y)
  /\ ((forall i, (i < 50)%nat ->
        Spawn.valid_position m px py
          (Spawn.Between (rnd (k0 + 2 * i)%nat) 50 (Spawn.widthInPixels m - 50))
          (Spawn.Between (rnd (S (k0 + 2 * i))) 50 (Spawn.heightInPixels m - 50))
        = false) ->
      let angle := (rnd (k0 + 100)%nat * PI * 2)%R in
      attempts = 50%nat
      /\ ox = Some (px + cos angle * 150)%R /\ oy = Some (py + sin angle * 150)%R
      /\ Spawn.distance (px + cos angle * 150) (py + sin angle * 150) px py = 150%R).
Proof.
  unfold Spawn.getValidSpawnPoint_run.
  pose proof (search_attempts_le m rnd px py 50 k0 0 None false ltac:(lia)) as Hle.
  pose proof (search_defined m rnd px py 50 k0 0 None false
                ltac:(discriminate)) as Hdef.
  pose proof (search_all_invalid m rnd px py 50 50 k0 0 None
                ltac:(lia) ltac:(lia)) as Hall.
  destruct (Spawn.search m rnd px py 50 k0 0 None false)
    as [[[k attempts] xy] v] eqn:Hs.
  simpl in Hle, Hdef.
  destruct v; simpl.
  - destruct xy as [[x y]|]; [|exfalso; exact (Hdef eq_refl eq_refl)].
    split; [exact Hle|]. split; [eauto|].
    intros Hinv. destruct (Hall Hinv) as [xy' Hxy']. congruence.
  - split; [exact Hle|]. split; [eauto|].
    intros Hinv. destruct (Hall Hinv) as [xy' Hxy']. injection Hxy' as Hk Ha _.
    subst. split; [reflexivity|]. split; [reflexivity|]. split; [reflexivity|].
    apply fallback_distance.
Qed.

(** * Further properties of the code *)

(** ** The UI health display *)

Lemma shade_length (i c : Z) (hs : list UI.Heart) :
  length (UI.shade i c hs) = length hs.
Proof. revert i. induction hs as [|h t IH]; intros i; simpl; [reflexivity|]. now rewrite IH. Qed.

Lemma shade_visible (i c : Z) (hs : list UI.Heart) :
  Forall (fun h => UI.hvisible h = true) hs ->
  Forall (fun h => UI.hvisible h = true) (UI.shade i c hs).
Proof.
  revert i. induction hs as [|h t IH]; intros i Hf; simpl; [constructor|].
  inversion Hf; subst. constructor; [destruct (i <? c); simpl; auto|]. now apply IH.
Qed.

Lemma shade_alpha (i c : Z) (hs : list UI.Heart) (k : nat) (h : UI.Heart) :
  nth_error (UI.shade i c hs) k = Some h ->
  UI.halpha h = (if i + Z.of_nat k <? c then 1 else 3 / 10)%R.
Proof.
  revert i k. induction hs as [|h0 t IH]; intros i k Hk; simpl in Hk.
  - destruct k; discriminate.
  - destruct k as [|k]; simpl in Hk.
    + injection Hk as <-. rewrite Z.add_0_r. destruct (i <? c); reflexivity.
    + rewrite (IH (i + 1) k Hk).
      replace (i + Z.of_nat (S k)) with (i + 1 + Z.of_nat k) by lia. reflexivity.
Qed.

(** [updateHealth] keeps the stored health within [0, maxHealth] and the
    number of hearts unchanged. With at least one heart, the pulse tween
    runs exactly when the health is 1. Hearts that were all visible stay
    visible. *)
Theorem UI_updateHealth_invariants (health : Z) (u : UI.UI) :
  0 <= u.(UI.maxHealth) ->
  let u' := UI.updateHealth health u in
  0 <= u'.(UI.currentHealth) <= u'.(UI.maxHealth)
  /\ length u'.(UI.hearts) = length u.(UI.hearts)
  /\ (u.(UI.hearts) <> [] ->
      (u'.(UI.heartPulseTween) = true <-> u'.(UI.currentHealth) = 1))
  /\ (Forall (fun h => UI.hvisible h = true) u.(UI.hearts) ->
      Forall (fun h => UI.hvisible h = true) u'.(UI.hearts)).
Proof.
  intros Hm u'. subst u'.
  destruct (updateHealth_fields health u) as (Hc & Hmax & _).
  rewrite Hc, Hmax. split; [lia|].
  unfold UI.updateHealth, UI.startHeartPulse, UI.stopHeartPulse; simpl.
  destruct (Z.max 0 (Z.min health (UI.maxHealth u)) =? 1) eqn:E1; simpl.
  - apply Z.eqb_eq in E1.
    destruct (UI.hearts u) as [|h0 t] eqn:Eh; simpl.
    + destruct (UI.heartPulseTween u); simpl;
        repeat split; auto; try congruence.
    + destruct (UI.heartPulseTween u); simpl; rewrite ?shade_length;
        repeat split; auto; try (intros Hv; exact (shade_visible 0 _ (h0 :: t) Hv)).
  - apply Z.eqb_neq in E1.
    destruct (UI.heartPulseTween u) eqn:Et; simpl.
    + rewrite length_map, shade_length. repeat split; try lia; try discriminate.
      intros Hv. apply Forall_map.
      eapply Forall_impl; [exact (shade_visible 0 _ _ Hv)|].
      intros h Hh; simpl; exact Hh.
    + rewrite shade_length. repeat split; try lia; try discriminate; try congruence.
      intros Hv. now apply shade_visible.
Qed.

(** When the clamped health is not 1: if no pulse was running, heart [k]
    gets alpha 1 below the health and 0.3 from it on. If a pulse was
    running and all hearts are visible, [stopHeartPulse] resets every
    heart to alpha 1 and scale 1, the faded ones included. *)
Theorem UI_updateHealth_hearts (health : Z) (u : UI.UI) :
  Z.max 0 (Z.min health u.(UI.maxHealth)) <> 1 ->
  let cur := Z.max 0 (Z.min health u.(UI.maxHealth)) in
  let u' := UI.updateHealth health u in
  (u.(UI.heartPulseTween) = false ->
   forall (k : nat) (h : UI.Heart), nth_error u'.(UI.hearts) k = Some h ->
   UI.halpha h = (if Z.of_nat k <? cur then 1 else 3 / 10)%R)
  /\ (u.(UI.heartPulseTween) = true ->
      Forall (fun h => UI.hvisible h = true) u.(UI.hearts) ->
      Forall (fun h => UI.halpha h = 1%R /\ UI.hscale h = 1%R) u'.(UI.hearts)).
Proof.
  intros Hne. cbv zeta. unfold UI.updateHealth. cbv zeta.
  rewrite (proj2 (Z.eqb_neq _ 1) Hne). unfold UI.stopHeartPulse. simpl.
  destruct (UI.heartPulseTween u) eqn:Et; split; intros Ht; try discriminate.
  - intros Hv. apply Forall_map.
    eapply Forall_impl; [exact (shade_visible 0 _ _ Hv)|].
    intros h Hh; simpl; rewrite Hh; split; reflexivity.
  - simpl. intros k h Hk. rewrite (shade_alpha _ _ _ _ _ Hk), Z.add_0_l. reflexivity.
Qed.

(** Losing one heart and healing it back returns and stores the starting
    health when it is in [1, maxHealth]. Healing one and then losing one
    does the same when the health is in [0, maxHealth). *)
Theorem UI_heal_damage_round_trip (u : UI.UI) :
  0 <= u.(UI.maxHealth) ->
  (1 <= u.(UI.currentHealth) <= u.(UI.maxHealth) ->
   (UI.healPlayer 1 (UI.damagePlayer 1 u).2).1 = u.(UI.currentHealth)
   /\ (UI.healPlayer 1 (UI.damagePlayer 1 u).2).2.(UI.currentHealth) = u.(UI.currentHealth))
  /\ (0 <= u.(UI.currentHealth) < u.(UI.maxHealth) ->
      (UI.damagePlayer 1 (UI.healPlayer 1 u).2).1 = u.(UI.currentHealth)
      /\ (UI.damagePlayer 1 (UI.healPlayer 1 u).2).2.(UI.currentHealth) = u.(UI.currentHealth)).
Proof.
  intros Hm. unfold UI.healPlayer, UI.damagePlayer. simpl.
  destruct (updateHealth_fields (UI.currentHealth u - 1) u) as (Hc1 & Hm1 & _).
  destruct (updateHealth_fields (UI.currentHealth u + 1) u) as (Hc2 & Hm2 & _).
  split; intros Hb.
  - destruct (updateHealth_fields
                (UI.currentHealth (UI.updateHealth (UI.currentHealth u - 1) u) + 1)
                (UI.updateHealth (UI.currentHealth u - 1) u)) as (Hc3 & _ & _).
    rewrite Hc3, Hm1, Hc1. split; lia.
  - destruct (updateHealth_fields
                (UI.currentHealth (UI.updateHealth (UI.currentHealth u + 1) u) - 1)
                (UI.updateHealth (UI.currentHealth u + 1) u)) as (Hc3 & _ & _).
    rewrite Hc3, Hm2, Hc2. split; lia.
Qed.

(** After [n] calls of [damagePlayer(1)], the stored health is [max 0
    (health - n)] and [maxHealth] is unchanged. *)
Theorem UI_damage_sequence (n : nat) (u : UI.UI) :
  0 <= u.(UI.currentHealth) <= u.(UI.maxHealth) ->
  (UI.damage_n n u).(UI.currentHealth) = Z.max 0 (u.(UI.currentHealth) - Z.of_nat n)
  /\ (UI.damage_n n u).(UI.maxHealth) = u.(UI.maxHealth).
Proof.
  revert u. induction n as [|n IH]; intros u Hb; simpl.
  - split; lia.
  - destruct (updateHealth_fields (UI.currentHealth u - 1) u) as (Hc & Hm & _).
    destruct (IH (UI.updateHealth (UI.currentHealth u - 1) u)) as (IH1 & IH2).
    { rewrite Hc, Hm. lia. }
    rewrite IH1, IH2, Hc, Hm. split; lia.
Qed.

(** ** Enemy steering *)

Lemma SQRT1_2_sq : (EnemyAI.SQRT1_2 * EnemyAI.SQRT1_2 = / 2)%R.
Proof.
  unfold EnemyAI.SQRT1_2. rewrite <- Rinv_mult, sqrt_sqrt; lra.
Qed.

Lemma SQRT1_2_pos : (0 < EnemyAI.SQRT1_2)%R.
Proof.
  unfold EnemyAI.SQRT1_2. apply Rinv_0_lt_compat, sqrt_lt_R0. lra.
Qed.

Lemma scaled_norm (a b : R) :
  ((a * EnemyAI.SQRT1_2) * (a * EnemyAI.SQRT1_2)
   + (b * EnemyAI.SQRT1_2) * (b * EnemyAI.SQRT1_2) = (a * a + b * b) / 2)%R.
Proof.
  replace ((a * EnemyAI.SQRT1_2) * (a * EnemyAI.SQRT1_2)
           + (b * EnemyAI.SQRT1_2) * (b * EnemyAI.SQRT1_2))%R
    with ((a * a + b * b) * (EnemyAI.SQRT1_2 * EnemyAI.SQRT1_2))%R by ring.
  rewrite SQRT1_2_sq. field.
Qed.

Ltac split_reals :=
  repeat match goal with
  | |- context [Rlt_dec ?a ?b] => destruct (Rlt_dec a b)
  | |- context [Req_dec_T ?a ?b] => destruct (Req_dec_T a b)
  | |- context [Rcase_abs ?a] => destruct (Rcase_abs a)
  | H : context [Rcase_abs ?a] |- _ => destruct (Rcase_abs a)
  end.

(** A chasing enemy that is neither stunned nor dying and is off target
    moves at exactly its [speed], with the diagonal normalised. It heads
    toward the target on each axis that moves. Inside the 5px horizontal
    dead zone it keeps its facing and has no horizontal velocity. It plays
    a run animation. *)
Theorem EnemyAI_chase_speed (e : EnemyAI.Mob) (tx ty : R) :
  e.(EnemyAI.mstunned) = false -> e.(EnemyAI.mdying) = false ->
  e.(EnemyAI.target) = Some (tx, ty) ->
  (5 < Rabs (tx - e.(EnemyAI.mx)) \/ ty <> e.(EnemyAI.my))%R ->
  let e' := EnemyAI.update e in
  (e'.(EnemyAI.mvx) * e'.(EnemyAI.mvx) + e'.(EnemyAI.mvy) * e'.(EnemyAI.mvy)
   = e.(EnemyAI.speed) * e.(EnemyAI.speed))%R
  /\ (Rabs (tx - e.(EnemyAI.mx)) <= 5 ->
      e'.(EnemyAI.mvx) = 0%R
      /\ e'.(EnemyAI.currentDirection) = e.(EnemyAI.currentDirection)
      /\ e'.(EnemyAI.flipX) = e.(EnemyAI.flipX))%R
  /\ (0 < e.(EnemyAI.speed) ->
      (5 < Rabs (tx - e.(EnemyAI.mx)) -> 0 < e'.(EnemyAI.mvx) * (tx - e.(EnemyAI.mx)))
      /\ (ty <> e.(EnemyAI.my) -> 0 < e'.(EnemyAI.mvy) * (ty - e.(EnemyAI.my))))%R
  /\ e'.(EnemyAI.anim)
     = Some (if String.eqb e'.(EnemyAI.currentDirection) "left"
             then EnemyAI.RunLeft else EnemyAI.RunRight).
Proof.
  intros Hs Hd Ht Hmv. cbv zeta.
  pose proof SQRT1_2_pos as Hk.
  pose proof (scaled_norm (- EnemyAI.speed e) (- EnemyAI.speed e)) as N1.
  pose proof (scaled_norm (- EnemyAI.speed e) (EnemyAI.speed e)) as N2.
  pose proof (scaled_norm (EnemyAI.speed e) (- EnemyAI.speed e)) as N3.
  pose proof (scaled_norm (EnemyAI.speed e) (EnemyAI.speed e)) as N4.
  unfold EnemyAI.update, EnemyAI.chase, EnemyAI.gtb, EnemyAI.ltb, EnemyAI.neqb.
  rewrite Hs, Hd, Ht. simpl.
  unfold Rabs in *.
  split_reals; simpl; try lra;
    repeat split; intros; try lra; try reflexivity; try nra;
    match goal with
    | |- (0 < ?a * EnemyAI.SQRT1_2 * ?b)%R =>
        replace (a * EnemyAI.SQRT1_2 * b)%R with ((a * b) * EnemyAI.SQRT1_2)%R by ring;
        apply Rmult_lt_0_compat; nra
    end.
Qed.

Lemma snap_or (v : R) :
  (if EnemyAI.ltb (Rabs v) 5 then 0%R else v) = v
  \/ (Rabs v < 5 /\ (if EnemyAI.ltb (Rabs v) 5 then 0%R else v) = 0)%R.
Proof.
  unfold EnemyAI.ltb. destruct (Rlt_dec (Rabs v) 5); [right; split; auto | left; reflexivity].
Qed.

Lemma chase_dead_zone (e : EnemyAI.Mob) (tx : R) :
  (Rabs (tx - e.(EnemyAI.mx)) <= 5)%R ->
  EnemyAI.chase e tx e.(EnemyAI.my)
  = (e.(EnemyAI.currentDirection), e.(EnemyAI.flipX), (0%R, 0%R), false).
Proof.
  intros Hx. unfold EnemyAI.chase, EnemyAI.gtb, EnemyAI.ltb, EnemyAI.neqb.
  destruct (Rlt_dec 5 (Rabs (tx - EnemyAI.mx e))); [lra|].
  replace (EnemyAI.my e - EnemyAI.my e)%R with 0%R by ring.
  rewrite Rabs_R0. destruct (Rlt_dec 0 0); [lra|].
  destruct (Req_dec_T 0 0); [reflexivity|congruence].
Qed.

(** With no target, or with the target inside the dead zone and at the
    same height, [update] keeps the facing. Each velocity component is
    either kept or, below 5, snapped to 0. A stunned or dying enemy is
    left unchanged. *)
Theorem EnemyAI_coast (e : EnemyAI.Mob) :
  (e.(EnemyAI.target) = None
   \/ exists tx ty, e.(EnemyAI.target) = Some (tx, ty)
                    /\ (Rabs (tx - e.(EnemyAI.mx)) <= 5)%R /\ ty = e.(EnemyAI.my)) ->
  let e' := EnemyAI.update e in
  e'.(EnemyAI.currentDirection) = e.(EnemyAI.currentDirection)
  /\ e'.(EnemyAI.flipX) = e.(EnemyAI.flipX)
  /\ (e'.(EnemyAI.mvx) = e.(EnemyAI.mvx)
      \/ (Rabs e.(EnemyAI.mvx) < 5 /\ e'.(EnemyAI.mvx) = 0)%R)
  /\ (e'.(EnemyAI.mvy) = e.(EnemyAI.mvy)
      \/ (Rabs e.(EnemyAI.mvy) < 5 /\ e'.(EnemyAI.mvy) = 0)%R)
  /\ (e.(EnemyAI.mstunned) || e.(EnemyAI.mdying) = true -> e' = e).
Proof.
  intros Htg. cbv zeta. unfold EnemyAI.update.
  destruct (EnemyAI.mstunned e || EnemyAI.mdying e) eqn:Esd.
  - repeat split; auto.
  - destruct Htg as [Hn | (tx & ty & Ht & Hx & Hy)];
      [rewrite Hn | rewrite Ht; subst ty; rewrite (chase_dead_zone e tx Hx)]; simpl;
      destruct (EnemyAI.gtb _ 10 || EnemyAI.gtb _ 10); simpl;
      repeat split; try reflexivity; try apply snap_or;
      try (left; reflexivity); intros Hf; discriminate.
Qed.

(** ** Player movement, sword and attack *)

Lemma update_movement_keeps (k : PlayerCtl.Keys) (p : PlayerCtl.Knight) :
  let p' := PlayerCtl.update_movement k p in
  p'.(PlayerCtl.isAttacking) = p.(PlayerCtl.isAttacking)
  /\ p'.(PlayerCtl.isKnockedBack) = p.(PlayerCtl.isKnockedBack)
  /\ p'.(PlayerCtl.hitboxEnable) = p.(PlayerCtl.hitboxEnable).
Proof.
  cbv zeta. unfold PlayerCtl.update_movement.
  repeat case_match; simplify_eq; simpl; auto.
Qed.

Lemma updateSwordPosition_keeps (p : PlayerCtl.Knight) :
  let p' := PlayerCtl.updateSwordPosition p in
  p'.(PlayerCtl.isAttacking) = p.(PlayerCtl.isAttacking)
  /\ p'.(PlayerCtl.isKnockedBack) = p.(PlayerCtl.isKnockedBack)
  /\ p'.(PlayerCtl.hitboxEnable) = p.(PlayerCtl.hitboxEnable).
Proof.
  unfold PlayerCtl.updateSwordPosition. destruct (PlayerCtl.attackDirection p); simpl; auto.
Qed.

(** [updateSwordPosition] puts the hitbox 19.5px from the player and the
    sword 13px from it on the same ray, on the side of [attackDirection];
    an attacking [hitEnemy] with that [attackDirection] sets the enemy's
    velocity to [knockbackForce] along that same ray, away from the
    player. *)
Theorem PlayerCtl_sword_on_attack_side (p : PlayerCtl.Knight) (q : Player) (t : Z)
  (e : Enemy) :
  q.(isAttacking) = true ->
  q.(attackDirection) = p.(PlayerCtl.attackDirection) ->
  let p' := PlayerCtl.updateSwordPosition p in
  let hx := (p'.(PlayerCtl.hitboxX) - p.(PlayerCtl.x))%R in
  let hy := (p'.(PlayerCtl.hitboxY) - p.(PlayerCtl.y))%R in
  let e' := (hitEnemy q t e).1.2 in
  (hx * hx + hy * hy = (39 / 2) * (39 / 2))%R
  /\ (p'.(PlayerCtl.swordX) - p.(PlayerCtl.x) = 2 / 3 * hx)%R
  /\ (p'.(PlayerCtl.swordY) - p.(PlayerCtl.y) = 2 / 3 * hy)%R
  /\ (e'.(vx) = q.(knockbackForce) / (39 / 2) * hx)%R
  /\ (e'.(vy) = q.(knockbackForce) / (39 / 2) * hy)%R.
Proof.
  intros Ha Hd. cbv zeta.
  pose proof (hitEnemy_velocity q t e Ha) as Hv. rewrite Hd in Hv.
  destruct ((hitEnemy q t e).1.2) as [? ? evx evy ? ? ? ? ? ? ? ?]. simpl in Hv.
  unfold PlayerCtl.updateSwordPosition, PlayerCtl.set_sword in *.
  destruct (PlayerCtl.attackDirection p); simpl in *; injection Hv as -> ->;
    replace (13 * 1.5)%R with (39 / 2)%R by lra; repeat split; field.
Qed.

(** While knocked back, the arrow keys change neither direction nor
    facing. Each velocity component is kept or, below 5, snapped to 0, and
    the idle animation plays. *)
Theorem PlayerCtl_knocked_back_ignores_input (k : PlayerCtl.Keys) (p : PlayerCtl.Knight) :
  p.(PlayerCtl.isKnockedBack) = true ->
  let p' := PlayerCtl.update_movement k p in
  p'.(PlayerCtl.attackDirection) = p.(PlayerCtl.attackDirection)
  /\ p'.(PlayerCtl.currentDirection) = p.(PlayerCtl.currentDirection)
  /\ p'.(PlayerCtl.flipX) = p.(PlayerCtl.flipX)
  /\ (p'.(PlayerCtl.pvx) = p.(PlayerCtl.pvx)
      \/ (Rabs p.(PlayerCtl.pvx) < 5 /\ p'.(PlayerCtl.pvx) = 0)%R)
  /\ (p'.(PlayerCtl.pvy) = p.(PlayerCtl.pvy)
      \/ (Rabs p.(PlayerCtl.pvy) < 5 /\ p'.(PlayerCtl.pvy) = 0)%R)
  /\ p'.(PlayerCtl.anim)
     = (if String.eqb p.(PlayerCtl.currentDirection) "left"
        then "knight-idle-left" else "knight-idle-right")%string.
Proof.
  intros Hk. cbv zeta. unfold PlayerCtl.update_movement. rewrite Hk. simpl.
  repeat split; try apply snap_or; reflexivity.
Qed.

(** When not knocked back and some arrow key is down, the player moves at
    speed 150, diagonals included. [attackDirection] takes the first
    pressed key in the order left, right, up, down. Left wins over right
    for the facing and up wins over down. *)
Theorem PlayerCtl_move_speed (k : PlayerCtl.Keys) (p : PlayerCtl.Knight) :
  p.(PlayerCtl.isKnockedBack) = false ->
  PlayerCtl.kleft k || PlayerCtl.kright k || PlayerCtl.kup k || PlayerCtl.kdown k = true ->
  let p' := PlayerCtl.update_movement k p in
  (p'.(PlayerCtl.pvx) * p'.(PlayerCtl.pvx) + p'.(PlayerCtl.pvy) * p'.(PlayerCtl.pvy)
   = 150 * 150)%R
  /\ p'.(PlayerCtl.attackDirection)
     = (if PlayerCtl.kleft k then DLeft else if PlayerCtl.kright k then DRight
        else if PlayerCtl.kup k then DUp else DDown)
  /\ (PlayerCtl.kleft k = true ->
      p'.(PlayerCtl.pvx) < 0 /\ p'.(PlayerCtl.currentDirection) = "left"%string
      /\ p'.(PlayerCtl.flipX) = true)%R
  /\ (PlayerCtl.kleft k = false -> PlayerCtl.kright k = true ->
      0 < p'.(PlayerCtl.pvx) /\ p'.(PlayerCtl.currentDirection) = "right"%string
      /\ p'.(PlayerCtl.flipX) = false)%R
  /\ (PlayerCtl.kup k = true -> p'.(PlayerCtl.pvy) < 0)%R
  /\ (PlayerCtl.kup k = false -> PlayerCtl.kdown k = true -> 0 < p'.(PlayerCtl.pvy))%R.
Proof.
  intros Hk Hany. cbv zeta.
  pose proof SQRT1_2_pos as Hs.
  pose proof (scaled_norm (- PlayerCtl.speed) (- PlayerCtl.speed)) as N1.
  pose proof (scaled_norm (- PlayerCtl.speed) PlayerCtl.speed) as N2.
  pose proof (scaled_norm PlayerCtl.speed (- PlayerCtl.speed)) as N3.
  pose proof (scaled_norm PlayerCtl.speed PlayerCtl.speed) as N4.
  unfold PlayerCtl.speed in *.
  unfold PlayerCtl.update_movement, PlayerCtl.speed. rewrite Hk.
  destruct k as [[] [] [] []]; simpl in Hany |- *; try discriminate;
    repeat split; intros; try discriminate; try reflexivity; try lra; try nra.
Qed.

(** [attack] does nothing while an attack is running, and [update] emits
    no new swing then. Otherwise it shows the sword at [base - 60],
    enables the hitbox and tweens the sword to [base + 60] over 200ms. The
    tween's completion hides the sword and disables the hitbox, so the
    next attack can start. *)
Theorem PlayerCtl_attack_swing (p : PlayerCtl.Knight) :
  let base := match p.(PlayerCtl.attackDirection) with
              | DUp => (-90)%R | DDown => 90%R | _ => 0%R end in
  (p.(PlayerCtl.isAttacking) = true -> PlayerCtl.attack p = (p, []))
  /\ (p.(PlayerCtl.isAttacking) = true ->
      forall k j, (PlayerCtl.update k j p).2 = []
                  /\ (PlayerCtl.update k j p).1.(PlayerCtl.isAttacking) = true)
  /\ (p.(PlayerCtl.isAttacking) = false ->
      let q := (PlayerCtl.attack p).1 in
      In (PlayerCtl.SwingTween (base + 60) PlayerCtl.attackDuration base)
         (PlayerCtl.attack p).2
      /\ q.(PlayerCtl.swordAngle) = (base - 60)%R
      /\ q.(PlayerCtl.isAttacking) = true
      /\ q.(PlayerCtl.hitboxEnable) = true
      /\ q.(PlayerCtl.swordVisible) = true
      /\ PlayerCtl.attack q = (q, [])
      /\ let r := PlayerCtl.attack_complete base q in
         r.(PlayerCtl.isAttacking) = false
         /\ r.(PlayerCtl.hitboxEnable) = false
         /\ r.(PlayerCtl.swordVisible) = false
         /\ r.(PlayerCtl.swordAngle) = base
         /\ (PlayerCtl.attack r).2 <> []).
Proof.
  cbv zeta. split; [|split].
  - intros Ha. unfold PlayerCtl.attack. now rewrite Ha.
  - intros Ha k j. unfold PlayerCtl.update.
    assert (Hu : (PlayerCtl.updateSwordPosition (PlayerCtl.update_movement k p)).(PlayerCtl.isAttacking) = true).
    { rewrite (proj1 (updateSwordPosition_keeps _)).
      rewrite (proj1 (update_movement_keeps k p)). exact Ha. }
    destruct j; [unfold PlayerCtl.attack; rewrite Hu|]; simpl; auto.
  - intros Ha. unfold PlayerCtl.attack, PlayerCtl.attack_complete. rewrite Ha.
    destruct (PlayerCtl.attackDirection p); simpl;
      repeat split; try discriminate; auto.
Qed.

(** ** Sword against breakable items *)

Lemma advanced_once_refl (now : Z) (o : option Breakable.Item) :
  SwordItems.advanced_once now o o.
Proof. destruct o; simpl; auto. Qed.

Lemma hitBreakableItem_some (now : Z) (k : Breakable.TileKey) (s : Breakable.Tiles)
  (r : Breakable.Item) :
  s.(Breakable.breakableItems) !! k = Some r ->
  exists res, Breakable.hitBreakableItem now k s = Some res.
Proof.
  intros Hk. unfold Breakable.hitBreakableItem. rewrite Hk.
  destruct (_ && _); [eauto|]. destruct (_ <=? _); eauto.
Qed.

Lemma hitBreakableItem_local (now : Z) (k : Breakable.TileKey) (s s' : Breakable.Tiles)
  (fx : list Breakable.Fx) :
  Breakable.hitBreakableItem now k s = Some (s', fx) ->
  (forall k', k' <> k ->
     s'.(Breakable.breakableItems) !! k' = s.(Breakable.breakableItems) !! k'
     /\ s'.(Breakable.itemsLayer) !! k' = s.(Breakable.itemsLayer) !! k')
  /\ SwordItems.advanced_once now (s.(Breakable.breakableItems) !! k)
                                  (s'.(Breakable.breakableItems) !! k)
  /\ (s'.(Breakable.breakableItems) !! k = None ->
      s'.(Breakable.itemsLayer) !! k = None)
  /\ (forall r', s'.(Breakable.breakableItems) !! k = Some r' ->
      s'.(Breakable.itemsLayer) !! k = s.(Breakable.itemsLayer) !! k).
Proof.
  unfold Breakable.hitBreakableItem.
  destruct (Breakable.breakableItems s !! k) as [r|] eqn:Ek; [|discriminate].
  destruct (_ && _).
  - intros Heq. injection Heq as <- <-. rewrite Ek.
    repeat split; auto using advanced_once_refl; congruence.
  - simpl. destruct (Breakable.maxHits r <=? Breakable.hits r + 1) eqn:Em;
      intros Heq; injection Heq as <- <-; simpl.
    + split; [intros k' Hne; now rewrite !lookup_delete_ne by congruence|].
      split; [rewrite lookup_delete_eq; simpl; apply Z.leb_le in Em; lia|].
      split; [intros _; apply lookup_delete_eq|].
      intros r'. rewrite lookup_delete_eq. discriminate.
    + split; [intros k' Hne; now rewrite lookup_insert_ne by congruence|].
      split; [rewrite lookup_insert_eq; simpl; right; repeat split|].
      split; [rewrite lookup_insert_eq; discriminate|].
      intros r' _. reflexivity.
Qed.

Lemma process_some (now : Z) (tiles : list SwordItems.TileRef) :
  forall checked s fx, exists res, SwordItems.process now tiles checked s fx = Some res.
Proof.
  induction tiles as [|[[tk idx]|] ts IH]; intros checked s fx; simpl; eauto.
  destruct (idx =? -1); [eauto|]. destruct (bool_decide _); [eauto|].
  destruct (Breakable.breakableItems s !! tk) as [r|] eqn:Ek; [|eauto].
  destruct (hitBreakableItem_some now tk s r Ek) as [[s1 fx1] Eh]. rewrite Eh. eauto.
Qed.

Lemma process_spec (now : Z) (tiles : list SwordItems.TileRef) :
  forall checked s fx s' fx',
  SwordItems.process now tiles checked s fx = Some (s', fx') ->
  forall k,
  (k ∈ checked ->
     s'.(Breakable.breakableItems) !! k = s.(Breakable.breakableItems) !! k
     /\ s'.(Breakable.itemsLayer) !! k = s.(Breakable.itemsLayer) !! k)
  /\ SwordItems.advanced_once now (s.(Breakable.breakableItems) !! k)
                                  (s'.(Breakable.breakableItems) !! k)
  /\ (s.(Breakable.breakableItems) !! k = None ->
      s'.(Breakable.itemsLayer) !! k = s.(Breakable.itemsLayer) !! k).
Proof.
  induction tiles as [|[[tk idx]|] ts IH]; intros checked s fx s' fx' Hp k; simpl in Hp.
  - injection Hp as <- <-. auto using advanced_once_refl.
  - destruct (idx =? -1); [eapply IH; eauto|].
    destruct (decide (tk ∈ checked)) as [Hc|Hc].
    { rewrite (bool_decide_eq_true_2 _ Hc) in Hp. eapply IH; eauto. }
    rewrite (bool_decide_eq_false_2 _ Hc) in Hp.
    destruct (Breakable.breakableItems s !! tk) as [r|] eqn:Ek.
    + destruct (Breakable.hitBreakableItem now tk s) as [[s1 fx1]|] eqn:Eh;
        [|discriminate].
      destruct (hitBreakableItem_local now tk s s1 fx1 Eh) as (Hne & Hadv & _ & _).
      destruct (IH _ _ _ _ _ Hp k) as (H1 & H2 & H3).
      destruct (decide (k = tk)) as [->|Hk].
      * destruct (H1 ltac:(set_solver)) as (E1 & E2).
        split; [intros; contradiction|]. split; [rewrite E1; exact Hadv|].
        rewrite Ek. discriminate.
      * destruct (Hne k Hk) as (E1 & E2).
        split; [intros Hin; destruct (H1 ltac:(set_solver)); split; congruence|].
        split; [rewrite <- E1; exact H2|].
        intros Hn. rewrite H3 by congruence. exact E2.
    + destruct (IH _ _ _ _ _ Hp k) as (H1 & H2 & H3).
      split; [intros Hin; apply H1; set_solver|]. auto.
  - eapply IH; eauto.
Qed.

(** A [checkSwordItemCollisions] frame always succeeds. Each breakable
    record is left alone, hit once at [now], or removed by a breaking hit.
    Tiles without a record keep their layer tile. Nothing happens unless
    the player is attacking with the hitbox enabled. *)
Theorem SwordItems_once_per_frame (p : PlayerCtl.Knight) (now : Z)
  (tiles : list SwordItems.TileRef) (s : Breakable.Tiles) :
  exists s' fx,
    SwordItems.checkSwordItemCollisions p now tiles s = Some (s', fx)
    /\ (forall k, SwordItems.advanced_once now (s.(Breakable.breakableItems) !! k)
                                                (s'.(Breakable.breakableItems) !! k))
    /\ (forall k, s.(Breakable.breakableItems) !! k = None ->
                  s'.(Breakable.itemsLayer) !! k = s.(Breakable.itemsLayer) !! k)
    /\ (p.(PlayerCtl.isAttacking) = false \/ p.(PlayerCtl.hitboxEnable) = false ->
        s' = s /\ fx = []).
Proof.
  unfold SwordItems.checkSwordItemCollisions.
  destruct (negb (PlayerCtl.isAttacking p) || negb (PlayerCtl.hitboxEnable p)) eqn:Eg.
  - exists s, []. repeat split; auto using advanced_once_refl.
  - destruct (process_some now tiles ∅ s []) as [[s' fx] Hp].
    exists s', fx. rewrite Hp. split; [reflexivity|].
    split; [intros k; exact (proj1 (proj2 (process_spec now tiles _ _ _ _ _ Hp k)))|].
    split; [intros k; exact (proj2 (proj2 (process_spec now tiles _ _ _ _ _ Hp k)))|].
    intros [Ha|Ha]; rewrite Ha in Eg; [discriminate|].
    rewrite orb_true_r in Eg. discriminate.
Qed.

Lemma layer_of_lookup (tiles : list (Breakable.TileKey * Z * bool)) (k : Breakable.TileKey)
  (idx : Z) (b : bool) :
  NoDup (map (fun t => t.1.1) tiles) -> In (k, idx, b) tiles ->
  SwordItems.layer_of tiles !! k = Some idx.
Proof.
  induction tiles as [|t ts IH]; intros Hnd Hin; [destruct Hin|].
  unfold SwordItems.layer_of. simpl. inversion Hnd as [|? ? Hnot Hnd']; subst.
  destruct Hin as [->|Hin].
  - simpl. apply lookup_insert_eq.
  - rewrite lookup_insert_ne.
    + apply IH; assumption.
    + intros Heq. apply Hnot. rewrite Heq.
      apply list_elem_of_In. exact (in_map (fun t => t.1.1) ts (k, idx, b) Hin).
Qed.

Lemma initBreakableItems_lookup (tiles : list (Breakable.TileKey * Z * bool)) :
  forall m k r, Breakable.initBreakableItems tiles m !! k = Some r ->
  m !! k = Some r
  \/ exists idx, In (k, idx, true) tiles /\ r = Breakable.mkItem idx 0 2 0.
Proof.
  induction tiles as [|[[k0 idx0] b0] ts IH]; intros m k r Hl; simpl in Hl; [auto|].
  destruct (IH _ _ _ Hl) as [Hm|(idx & Hin & ->)].
  - destruct b0; [|auto].
    destruct (decide (k = k0)) as [->|Hne].
    + rewrite lookup_insert_eq in Hm. injection Hm as <-.
      right. exists idx0. split; [left|]; reflexivity.
    + rewrite lookup_insert_ne in Hm by congruence. auto.
  - right. exists idx. split; [right; exact Hin|reflexivity].
Qed.

Lemma hitBreakableItem_ok (now : Z) (k : Breakable.TileKey) (s s' : Breakable.Tiles)
  (fx : list Breakable.Fx) :
  SwordItems.tiles_ok s -> Breakable.hitBreakableItem now k s = Some (s', fx) ->
  SwordItems.tiles_ok s'.
Proof.
  intros Hok. unfold Breakable.hitBreakableItem.
  destruct (Breakable.breakableItems s !! k) as [r|] eqn:Ek; [|discriminate].
  destruct (Hok k r Ek) as (Hl & Hh & Hm).
  destruct (_ && _); [intros Heq; injection Heq as <- <-; exact Hok|].
  simpl. destruct (Breakable.maxHits r <=? Breakable.hits r + 1) eqn:Em;
    intros Heq; injection Heq as <- <-; intros k' r'; simpl.
  - destruct (decide (k' = k)) as [->|Hne].
    + rewrite lookup_delete_eq. discriminate.
    + rewrite !lookup_delete_ne by congruence. apply Hok.
  - destruct (decide (k' = k)) as [->|Hne].
    + rewrite lookup_insert_eq. intros Heq; injection Heq as <-. simpl.
      apply Z.leb_gt in Em. split; [exact Hl|]. lia.
    + rewrite lookup_insert_ne by congruence. apply Hok.
Qed.

Lemma process_ok (now : Z) (tiles : list SwordItems.TileRef) :
  forall checked s fx s' fx',
  SwordItems.tiles_ok s ->
  SwordItems.process now tiles checked s fx = Some (s', fx') ->
  SwordItems.tiles_ok s'.
Proof.
  induction tiles as [|[[tk idx]|] ts IH]; intros checked s fx s' fx' Hok Hp; simpl in Hp.
  - injection Hp as <- <-. exact Hok.
  - destruct (idx =? -1); [eapply IH; eauto|].
    destruct (bool_decide _); [eapply IH; eauto|].
    destruct (Breakable.breakableItems s !! tk); [|eapply IH; eauto].
    destruct (Breakable.hitBreakableItem now tk s) as [[s1 fx1]|] eqn:Eh; [|discriminate].
    eapply IH; [|exact Hp]. eapply hitBreakableItem_ok; eauto.
  - eapply IH; eauto.
Qed.

(** From a loaded map with distinct tile cells, through any number of
    sword frames, every tracked breakable sits on its own tile in the
    items layer with 0 <= hits < maxHits = 2. *)
Theorem SwordItems_reach_ok (tiles0 : list (Breakable.TileKey * Z * bool))
  (s : Breakable.Tiles) :
  SwordItems.reach tiles0 s -> SwordItems.tiles_ok s.
Proof.
  induction 1 as [Hnd|p now tiles s s' fx _ IH Hc].
  - intros k r Hk. simpl in Hk.
    destruct (initBreakableItems_lookup _ _ _ _ Hk) as [He|(idx & Hin & ->)].
    + rewrite lookup_empty in He. discriminate.
    + simpl. split; [exact (layer_of_lookup _ _ _ _ Hnd Hin)|]. lia.
  - unfold SwordItems.checkSwordItemCollisions in Hc.
    destruct (_ || _); [injection Hc as <- <-; exact IH|].
    eapply process_ok; eauto.
Qed.

(** ** Wave totals over a session *)

(** In every reachable session state the wave invariant [session_inv]
    holds. At most 15 enemies are ever spawned, and the victory screen is
    shown at most once. *)
Theorem Waves_session_totals (s : Waves.Wave) :
  Waves.reachable s ->
  WaveTotals.session_inv s
  /\ (s.(Waves.nextId) <= 15)%nat
  /\ (s.(Waves.wonShown) <= 1)%nat.
Proof.
  intros Hr.
  assert (Hi : WaveTotals.session_inv s).
  { induction Hr as [t0|s s' Hr IH Hs].
    - unfold Waves.after_create, Waves.startNextWave, Waves.before_create. simpl.
      unfold Waves.spawnEnemy, Waves.set_wave. simpl.
      repeat split; try lia; try discriminate.
      + simpl. constructor; [intros []|constructor].
      + simpl. intros id [<-|[]]. lia.
    - destruct IH as (Hm & Hw & Hwon & Hn & Hnd & Hlt & Hlive).
      inversion Hs as [s0 id Hin Heq1 Heq2|s0 dt Hdt Heq1 Heq2|s0 l1 t l2 Hp Hdue Heq1 Heq2];
        subst.
      + unfold Waves.onDestroy.
        assert (Hw5 : Waves.currentWave s <= 5).
        { apply Hlive. left. intros He. rewrite He in Hin. destruct Hin. }
        assert (Hnd' : List.NoDup (List.filter (fun e => negb (Nat.eqb e id)) (Waves.enemies s)))
          by (apply List.NoDup_filter; exact Hnd).
        assert (Hlt' : forall x, In x (List.filter (fun e => negb (Nat.eqb e id)) (Waves.enemies s)) ->
                               (x < Waves.nextId s)%nat)
          by (intros x Hx; apply List.filter_In in Hx; apply Hlt, Hx).
        destruct (List.filter _ _) eqn:Ef; unfold WaveTotals.session_inv; cbn;
          repeat split; try assumption; try lia;
          try (intros x Hx; apply Hlt'; exact Hx); intros _; exact Hw5.
      + unfold WaveTotals.session_inv, Waves.advance. cbn. repeat split; first [assumption | lia].
      + destruct (wave_inv_reachable s Hr) as [Hpend Hlen].
        assert (Ht : In t (Waves.pending s)) by (rewrite Hp; apply in_or_app; right; left; reflexivity).
        destruct (Hpend t Ht) as (He & _ & _).
        assert (Hw5 : Waves.currentWave s <= 5).
        { apply Hlive. right. rewrite Hp. destruct l1; discriminate. }
        assert (Hl12 : l1 ++ l2 = []).
        { rewrite Hp, length_app in Hlen. simpl in Hlen.
          destruct l1; [destruct l2; [reflexivity|simpl in Hlen; lia]|simpl in Hlen; lia]. }
        unfold Waves.startNextWave. simpl. rewrite Hm.
        destruct (5 <? Waves.currentWave s + 1) eqn:Ewin.
        * apply Z.ltb_lt in Ewin. simpl.
          assert (Hw' : Waves.currentWave s = 5) by lia.
          rewrite Hw' in Hwon, Hn |- *. simpl in Hwon |- *.
          unfold WaveTotals.session_inv, Waves.showGameWon, Waves.set_wave,
            Waves.with_pending. cbn.
          rewrite Hwon, He, Hl12. cbn.
          repeat split; try lia; try constructor.
          intros [H|H]; exfalso; apply H; reflexivity.
        * apply Z.ltb_ge in Ewin.
          destruct (spawn_loop_spec (Z.to_nat (Waves.currentWave s + 1))
                      (Waves.set_wave (Waves.with_pending s (l1 ++ l2))
                                      (Waves.currentWave s + 1)))
            as (H1 & H2 & H3 & H4 & _ & _ & H7).
          simpl in H1, H2, H3, H4, H7.
          assert (Hwon0 : Waves.wonShown s = 0%nat)
            by (rewrite Hwon; destruct (Waves.currentWave s =? 6) eqn:E6;
                [apply Z.eqb_eq in E6; lia|reflexivity]).
          repeat split.
          -- rewrite H4. exact Hm.
          -- rewrite H3. lia.
          -- rewrite H3. lia.
          -- rewrite H7, Hwon0, H3.
             destruct (Waves.currentWave s + 1 =? 6) eqn:E6; [apply Z.eqb_eq in E6; lia|reflexivity].
          -- rewrite H2, H3, Nat2Z.inj_add, Z2Nat.id by lia.
             rewrite Z.min_l in Hn |- * by lia. nia.
          -- rewrite H1, He. simpl. apply List.seq_NoDup.
          -- intros id Hid. rewrite H1, He in Hid. simpl in Hid.
             apply List.in_seq in Hid. rewrite H2. lia.
          -- intros _. rewrite H3. lia. }
  split; [exact Hi|].
  destruct Hi as (Hm & Hw & Hwon & Hn & _).
  split.
  - assert (Hmin : Z.min (Waves.currentWave s) 5 <= 5) by lia.
    assert (Hmin0 : 0 <= Z.min (Waves.currentWave s) 5) by lia.
    nia.
  - rewrite Hwon. destruct (_ =? 6); lia.
Qed.

(** ** Knockback direction of an enemy contact *)





(** ** Spawn points keep their distance *)

Section SpawnValid.

Variable m : Spawn.Map.
Variable rnd : nat -> R.
Variables playerX playerY : R.

Lemma search_valid (fuel k attempts : nat) xy v :
  (v = true -> exists x y, xy = Some (x, y)
                /\ Spawn.valid_position m playerX playerY x y = true) ->
  (Spawn.search m rnd playerX playerY fuel k attempts xy v).2 = true ->
  exists x y, (Spawn.search m rnd playerX playerY fuel k attempts xy v).1.2 = Some (x, y)
              /\ Spawn.valid_position m playerX playerY x y = true.
Proof.
  revert k attempts xy v. induction fuel as [|f IH]; intros k attempts xy v Hv;
    simpl; [exact Hv|].
  destruct (negb v && Nat.ltb attempts 50); simpl; [|exact Hv].
  apply IH. intros Hval. eexists _, _. split; [reflexivity|exact Hval].
Qed.

End SpawnValid.

Lemma valid_position_spec (m : Spawn.Map) (px py : R) (x y : Z) :
  Spawn.valid_position m px py x y = true ->
  Spawn.not_wall (Spawn.wallsLayer m (Spawn.worldToTileX m x) (Spawn.worldToTileY m y)) = true
  /\ Spawn.not_breakable (Spawn.itemsLayer m (Spawn.worldToTileX m x) (Spawn.worldToTileY m y)) = true
  /\ (100 < Spawn.distance (IZR x) (IZR y) px py)%R.
Proof.
  unfold Spawn.valid_position. intros H.
  apply andb_prop in H as [H H3]. apply andb_prop in H as [H1 H2].
  split; [exact H1|]. split; [exact H2|].
  destruct (Rlt_dec _ _) as [Hd|]; [exact Hd|discriminate].
Qed.

(** [getValidSpawnPoint] always returns a point farther than 100px from
    the player. It is either a checked integer point off walls and
    breakables, or the fallback point on the 150px circle. *)
Theorem Spawn_point_far_from_player (m : Spawn.Map) (rnd : nat -> R) (k0 : nat)
  (px py : R) :
  let '(_, (ox, oy)) := Spawn.getValidSpawnPoint_run m rnd k0 px py in
  exists x y, ox = Some x /\ oy = Some y
    /\ (Spawn.minDistanceFromPlayer < Spawn.distance x y px py)%R
    /\ ((exists tx ty, x = IZR tx /\ y = IZR ty
         /\ Spawn.not_wall (Spawn.wallsLayer m (Spawn.worldToTileX m tx) (Spawn.worldToTileY m ty)) = true
         /\ Spawn.not_breakable (Spawn.itemsLayer m (Spawn.worldToTileX m tx) (Spawn.worldToTileY m ty)) = true)
        \/ Spawn.distance x y px py = 150%R).
Proof.
  unfold Spawn.getValidSpawnPoint_run.
  pose proof (search_valid m rnd px py 50 k0 0 None false ltac:(discriminate)) as Hv.
  destruct (Spawn.search m rnd px py 50 k0 0 None false) as [[[k attempts] xy] v].
  simpl in Hv. destruct v; simpl.
  - destruct (Hv eq_refl) as (x & y & -> & Hval).
    destruct (valid_position_spec m px py x y Hval) as (H1 & H2 & H3).
    exists (IZR x), (IZR y). repeat split; [exact H3|]. left. eauto 7.
  - exists (px + cos (rnd k * PI * 2) * 150)%R, (py + sin (rnd k * PI * 2) * 150)%R.
    rewrite fallback_distance. unfold Spawn.minDistanceFromPlayer.
    repeat split; [lra|]. right. reflexivity.
Qed.


(** ** Enemy hit counter along a damage sequence *)

Lemma takeDamage_kill_step (t dmg : Z) (e : Enemy) :
  EnemyHits.kill_inv e ->
  let '(k, e1, _) := takeDamage t dmg e in
  EnemyHits.kill_inv e1
  /\ k = negb e.(isDying) && e1.(isDying)
  /\ (e.(isDying) = true -> e1.(isDying) = true).
Proof.
  intros (Hk & Hb & Hd & He). unfold takeDamage.
  destruct (isDying e) eqn:Hd0.
  - split; [repeat split; auto; try congruence; lia|]. simpl. rewrite Hd0. auto.
  - destruct (t - lastHitTime e <? hitCooldown e).
    + split; [repeat split; auto; try congruence; lia|]. simpl. rewrite Hd0. auto.
    + symmetry in Hd. apply Z.eqb_neq in Hd. cbn. rewrite Hk.
      destruct (3 <=? hitsTaken e + 1) eqn:H3; cbn.
      * apply Z.leb_le in H3.
        assert (E : (hitsTaken e + 1 =? 3) = true) by (apply Z.eqb_eq; lia).
        repeat split; cbn; auto; lia.
      * apply Z.leb_gt in H3.
        assert (E : (hitsTaken e + 1 =? 3) = false) by (apply Z.eqb_neq; lia).
        repeat split; cbn; auto; try lia; try discriminate.
Qed.

Lemma takeDamage_seq_kill (times : list Z) (dmg : Z) (e : Enemy) :
  EnemyHits.kill_inv e ->
  let '(ks, e') := takeDamage_seq times dmg e in
  EnemyHits.kill_inv e'
  /\ (count_occ Bool.bool_dec ks true + (if e.(isDying) then 1 else 0)
      = if e'.(isDying) then 1 else 0)%nat.
Proof.
  revert e. induction times as [|t ts IH]; intros e Hi; simpl; [auto|].
  pose proof (takeDamage_kill_step t dmg e Hi) as Hs.
  destruct (takeDamage t dmg e) as [[k e1] fx].
  destruct Hs as (Hi1 & Hk & Hm).
  pose proof (IH e1 Hi1) as IH1.
  destruct (takeDamage_seq ts dmg e1) as [ks e2].
  destruct IH1 as (Hi2 & Hc). split; [exact Hi2|].
  subst k. destruct (isDying e), (isDying e1); simpl in *;
    try (specialize (Hm eq_refl); discriminate); lia.
Qed.

(** Along every sequence of [takeDamage] calls on a new enemy, the hit
    counter stays in [0, 3], the enemy is dying exactly when it has taken
    3 hits, a dying enemy has its physics body disabled, and [true]
    (killed) is returned at most once: exactly once if the enemy is dying
    at the end, never otherwise. *)
Theorem Combat_takeDamage_kills_once (times : list Z) (dmg : Z) (x y : R) :
  let '(ks, e) := takeDamage_seq times dmg (new_enemy x y) in
  0 <= e.(hitsTaken) <= 3
  /\ e.(isDying) = (e.(hitsTaken) =? 3)
  /\ (e.(isDying) = true -> e.(bodyEnable) = false)
  /\ count_occ Bool.bool_dec ks true = (if e.(isDying) then 1 else 0)%nat.
Proof.
  assert (H0 : EnemyHits.kill_inv (new_enemy x y)) by (repeat split; cbn; try lia; discriminate).
  pose proof (takeDamage_seq_kill times dmg _ H0) as H.
  destruct (takeDamage_seq times dmg (new_enemy x y)) as [ks e].
  destruct H as ((_ & Hb & Hd & He) & Hc). simpl in Hc.
  repeat split; auto; lia.
Qed.

(** ** Player health through the scene *)

Lemma SceneHealth_damage_low (s : SceneHealth.Scene) :
  s.(SceneHealth.playerInvincible) = false ->
  s.(SceneHealth.ui).(UI.currentHealth) <= 1 ->
  let s' := SceneHealth.damagePlayer s in
  s'.(SceneHealth.ui).(UI.currentHealth) = 0
  /\ s'.(SceneHealth.playerInvincible) = false
  /\ s'.(SceneHealth.invincibilityTime) = s.(SceneHealth.invincibilityTime)
  /\ s'.(SceneHealth.log) = s.(SceneHealth.log) ++ [Health.Shake 100; Health.DeathTween].
Proof.
  intros Hi Hc. unfold SceneHealth.damagePlayer. rewrite Hi. cbn.
  replace (UI.currentHealth (SceneHealth.ui s) - 1 <=? 0) with true
    by (symmetry; apply Z.leb_le; lia).
  cbn. destruct (updateHealth_fields (UI.currentHealth (SceneHealth.ui s) - 1)
                  (SceneHealth.ui s)) as (Hcur & _ & _).
  repeat split; auto.
  - rewrite Hcur. lia.
  - rewrite <- app_assoc. reflexivity.
Qed.

Lemma SceneHealth_damage_high (s : SceneHealth.Scene) :
  s.(SceneHealth.playerInvincible) = false ->
  2 <= s.(SceneHealth.ui).(UI.currentHealth) <= s.(SceneHealth.ui).(UI.maxHealth) ->
  let s' := SceneHealth.damagePlayer s in
  s'.(SceneHealth.ui).(UI.currentHealth) = s.(SceneHealth.ui).(UI.currentHealth) - 1
  /\ s'.(SceneHealth.ui).(UI.maxHealth) = s.(SceneHealth.ui).(UI.maxHealth)
  /\ s'.(SceneHealth.playerInvincible) = true
  /\ s'.(SceneHealth.invincibilityTime) = s.(SceneHealth.invincibilityTime)
  /\ s'.(SceneHealth.log) = s.(SceneHealth.log)
       ++ [Health.Shake 100; Health.PlayerAlphaHalf; Health.FlashInterval 150 5;
           Health.After s.(SceneHealth.invincibilityTime) Health.ResetInvincible].
Proof.
  intros Hi Hc. unfold SceneHealth.damagePlayer. rewrite Hi. cbn.
  replace (UI.currentHealth (SceneHealth.ui s) - 1 <=? 0) with false
    by (symmetry; apply Z.leb_gt; lia).
  cbn. destruct (updateHealth_fields (UI.currentHealth (SceneHealth.ui s) - 1)
                  (SceneHealth.ui s)) as (Hcur & Hmax & _).
  repeat split; auto.
  - rewrite Hcur. lia.
  - rewrite <- app_assoc. reflexivity.
Qed.

Lemma deaths_app (l l' : list Health.Fx) :
  SceneHealth.deaths (l ++ l') = (SceneHealth.deaths l + SceneHealth.deaths l')%nat.
Proof. unfold SceneHealth.deaths. rewrite List.filter_app, List.length_app. reflexivity. Qed.

(** Once the player's health is at most 1, the scene never grants
    invincibility again: every further enemy contact (with no timer
    firing in between) shakes the camera and calls [playerDeath()] once
    more, and the health stays at 0.  [playerDeath] is not guarded, so
    [n + 1] contacts start [n + 1] death tweens. *)
Theorem SceneHealth_death_repeats (n : nat) (s : SceneHealth.Scene) :
  s.(SceneHealth.playerInvincible) = false ->
  s.(SceneHealth.ui).(UI.currentHealth) <= 1 ->
  let s' := SceneHealth.contacts (S n) s in
  s'.(SceneHealth.ui).(UI.currentHealth) = 0
  /\ s'.(SceneHealth.playerInvincible) = false
  /\ s'.(SceneHealth.log)
     = s.(SceneHealth.log) ++ List.concat (List.repeat [Health.Shake 100; Health.DeathTween] (S n))
  /\ SceneHealth.deaths s'.(SceneHealth.log) = (SceneHealth.deaths s.(SceneHealth.log) + S n)%nat.
Proof.
  intros Hi Hc s'. unfold s'. clear s'.
  revert s Hi Hc. induction n as [|n IH]; intros s Hi Hc.
  - simpl. destruct (SceneHealth_damage_low s Hi Hc) as (H1 & H2 & _ & H4).
    rewrite H4, deaths_app. repeat split; auto; simpl; lia.
  - change (SceneHealth.contacts (S (S n)) s)
      with (SceneHealth.contacts (S n) (SceneHealth.damagePlayer s)).
    destruct (SceneHealth_damage_low s Hi Hc) as (H1 & H2 & _ & H4).
    destruct (IH (SceneHealth.damagePlayer s) H2 ltac:(lia)) as (G1 & G2 & G3 & G4).
    rewrite G4, G3, H4, deaths_app. repeat split; auto.
    + rewrite <- app_assoc. reflexivity.
    + change (SceneHealth.deaths [Health.Shake 100; Health.DeathTween]) with 1%nat. lia.
Qed.

(** From health [h] with [1 <= h <= maxHealth] and no invincibility, if
    each enemy contact comes after the previous invincibility has run
    out, the first [h - 1] contacts each take one heart and never call
    [playerDeath()], and the [h]-th contact calls it once and leaves the
    health at 0. *)
Theorem SceneHealth_hits_to_death (s : SceneHealth.Scene) :
  s.(SceneHealth.playerInvincible) = false ->
  1 <= s.(SceneHealth.ui).(UI.currentHealth) <= s.(SceneHealth.ui).(UI.maxHealth) ->
  (forall k : nat, Z.of_nat k < s.(SceneHealth.ui).(UI.currentHealth) ->
     let sk := SceneHealth.hits k s in
     sk.(SceneHealth.ui).(UI.currentHealth) = s.(SceneHealth.ui).(UI.currentHealth) - Z.of_nat k
     /\ sk.(SceneHealth.playerInvincible) = false
     /\ SceneHealth.deaths sk.(SceneHealth.log) = SceneHealth.deaths s.(SceneHealth.log))
  /\ (let s' := SceneHealth.damagePlayer
                  (SceneHealth.hits (Z.to_nat (s.(SceneHealth.ui).(UI.currentHealth) - 1)) s) in
      s'.(SceneHealth.ui).(UI.currentHealth) = 0
      /\ SceneHealth.deaths s'.(SceneHealth.log) = S (SceneHealth.deaths s.(SceneHealth.log))).
Proof.
  intros Hi Hc.
  assert (Hk : forall k : nat, forall s : SceneHealth.Scene,
     s.(SceneHealth.playerInvincible) = false ->
     1 <= s.(SceneHealth.ui).(UI.currentHealth) <= s.(SceneHealth.ui).(UI.maxHealth) ->
     Z.of_nat k < s.(SceneHealth.ui).(UI.currentHealth) ->
     let sk := SceneHealth.hits k s in
     sk.(SceneHealth.ui).(UI.currentHealth) = s.(SceneHealth.ui).(UI.currentHealth) - Z.of_nat k
     /\ sk.(SceneHealth.playerInvincible) = false
     /\ SceneHealth.deaths sk.(SceneHealth.log) = SceneHealth.deaths s.(SceneHealth.log)).
  { clear s Hi Hc. induction k as [|k IH]; intros s Hi Hc Hlt.
    - simpl. repeat split; auto; lia.
    - cbv zeta. change (SceneHealth.hits (S k) s)
        with (SceneHealth.hits k (SceneHealth.resetInvincible (SceneHealth.damagePlayer s))).
      destruct (SceneHealth_damage_high s Hi ltac:(lia)) as (H1 & H2 & _ & _ & H5).
      destruct (IH (SceneHealth.resetInvincible (SceneHealth.damagePlayer s))
                  eq_refl ltac:(cbn; lia) ltac:(cbn; lia)) as (G1 & G2 & G3).
      rewrite G1, G3.
      cbn [SceneHealth.resetInvincible SceneHealth.ui SceneHealth.log].
      rewrite H1, H5, deaths_app.
      change (SceneHealth.deaths
                [Health.Shake 100; Health.PlayerAlphaHalf; Health.FlashInterval 150 5;
                 Health.After (SceneHealth.invincibilityTime s) Health.ResetInvincible])
        with 0%nat.
      repeat split; auto; lia. }
  split; [intros k Hlt; exact (Hk k s Hi Hc Hlt)|].
  destruct (Hk (Z.to_nat (s.(SceneHealth.ui).(UI.currentHealth) - 1)) s Hi Hc ltac:(lia))
    as (G1 & G2 & G3).
  destruct (SceneHealth_damage_low _ G2 ltac:(lia)) as (H1 & _ & _ & H4).
  split; [exact H1|]. rewrite H4, deaths_app, G3.
  change (SceneHealth.deaths [Health.Shake 100; Health.DeathTween]) with 1%nat. lia.
Qed.

(** * Witnesses: the hypotheses of the theorems above are satisfiable *)

Lemma C3_witness :
  let s := Breakable.mkTiles {[ (1, 1) := Breakable.mkItem 7 0 2 0 ]}
                             {[ (1, 1) := 7 ]} in
  s.(Breakable.breakableItems) !! (1, 1) = Some (Breakable.mkItem 7 0 2 0)
  /\ 0 < 1000
  /\ exists s2, Breakable.hit_twice 1000 1200 (1, 1) s = Some s2
       /\ s2.(Breakable.breakableItems) !! (1, 1) = Some (Breakable.mkItem 7 1 2 1000).
Proof.
  intros s. split; [reflexivity|]. split; [lia|].
  destruct (C3_breakable_debounce s (1, 1) 7 1000 1200 eq_refl ltac:(lia))
    as (_ & H2 & _).
  destruct (H2 ltac:(lia)) as (s2 & Hs2 & Hk & _). exists s2. split; assumption.
Defined.

Lemma C4_witness :
  let p := mkPlayer true DUp 10 200 in
  let e := new_enemy 30 40 in
  p.(isAttacking) = true /\ p.(knockbackForce) = 200%R
  /\ ((hitEnemy p 1000 e).1.2.(vx), (hitEnemy p 1000 e).1.2.(vy))
     = knockback_of DUp 200.
Proof.
  intros p e. split; [reflexivity|]. split; [reflexivity|].
  exact (proj1 (C4_knockback_cardinal p 1000 e eq_refl eq_refl)).
Defined.

Lemma C5_witness :
  let s := Health.mkScene (UI.new_UI 5) 1000 false false 0 0 0 0 [] in
  s.(Health.invincibilityTime) = 1000
  /\ (Health.damagePlayer s).(Health.playerInvincible) = true.
Proof.
  intros s. split; [reflexivity|].
  destruct (C5_damagePlayer_invincibility s eq_refl) as (_ & H2 & _).
  destruct (H2 eq_refl ltac:(simpl; lia)) as (_ & _ & Hi & _).
  exact Hi.
Defined.

Lemma C7_witness :
  let s := Waves.advance 1000 (Waves.onDestroy 0 (Waves.after_create 0)) in
  Waves.reachable s
  /\ s.(Waves.pending) = [] ++ Waves.mkTimer 0 1000 :: []
  /\ 0 + 1000 <= s.(Waves.now)
  /\ s.(Waves.enemies) = [].
Proof.
  intros s.
  assert (Hr : Waves.reachable s).
  { apply (Waves.reach_step (Waves.onDestroy 0 (Waves.after_create 0))).
    - apply (Waves.reach_step (Waves.after_create 0)).
      + apply Waves.reach_init.
      + apply Waves.step_destroy. simpl. left. reflexivity.
    - apply Waves.step_tick. lia. }
  split; [exact Hr|]. split; [reflexivity|]. split; [simpl; lia|].
  exact (proj1 (C7_next_wave_needs_empty_roster s [] [] (Waves.mkTimer 0 1000)
                  Hr eq_refl ltac:(simpl; lia))).
Defined.

Lemma C8_witness :
  let s := Health.mkScene (UI.new_UI 5) 1000 true false 0 0 0 0 [] in
  s.(Health.playerInvincible) = true
  /\ (Health.playerHit 10 0 s).(Health.ui) = s.(Health.ui).
Proof.
  intros s. split; [reflexivity|].
  exact (proj1 (C8_playerHit_while_invincible s 10 0 eq_refl)).
Defined.

Lemma UI_updateHealth_invariants_witness :
  0 <= (UI.new_UI 5).(UI.maxHealth)
  /\ 0 <= (UI.updateHealth 7 (UI.new_UI 5)).(UI.currentHealth)
        <= (UI.updateHealth 7 (UI.new_UI 5)).(UI.maxHealth).
Proof.
  split; [simpl; lia|].
  exact (proj1 (UI_updateHealth_invariants 7 (UI.new_UI 5) ltac:(simpl; lia))).
Defined.

Lemma UI_updateHealth_hearts_witness :
  let u := UI.damage_n 4 (UI.new_UI 5) in
  Z.max 0 (Z.min 0 u.(UI.maxHealth)) <> 1
  /\ u.(UI.heartPulseTween) = true
  /\ Forall (fun h => UI.hvisible h = true) u.(UI.hearts)
  /\ Forall (fun h => UI.halpha h = 1%R /\ UI.hscale h = 1%R)
       (UI.updateHealth 0 u).(UI.hearts).
Proof.
  intros u.
  assert (Ht : u.(UI.heartPulseTween) = true) by reflexivity.
  assert (Hv : Forall (fun h => UI.hvisible h = true) u.(UI.hearts))
    by (cbn; repeat constructor).
  assert (Hn : Z.max 0 (Z.min 0 u.(UI.maxHealth)) <> 1) by (cbn; lia).
  split; [exact Hn|]. split; [exact Ht|]. split; [exact Hv|].
  exact (proj2 (UI_updateHealth_hearts 0 u Hn) Ht Hv).
Defined.

Lemma UI_heal_damage_round_trip_witness :
  0 <= (UI.new_UI 5).(UI.maxHealth)
  /\ (UI.healPlayer 1 (UI.damagePlayer 1 (UI.new_UI 5)).2).1
     = (UI.new_UI 5).(UI.currentHealth).
Proof.
  split; [simpl; lia|].
  exact (proj1 (proj1 (UI_heal_damage_round_trip (UI.new_UI 5) ltac:(simpl; lia))
                  ltac:(simpl; lia))).
Defined.

Lemma UI_damage_sequence_witness :
  0 <= (UI.new_UI 5).(UI.currentHealth) <= (UI.new_UI 5).(UI.maxHealth)
  /\ (UI.damage_n 7 (UI.new_UI 5)).(UI.currentHealth)
     = Z.max 0 ((UI.new_UI 5).(UI.currentHealth) - Z.of_nat 7).
Proof.
  split; [simpl; lia|].
  exact (proj1 (UI_damage_sequence 7 (UI.new_UI 5) ltac:(simpl; lia))).
Defined.

Lemma EnemyAI_chase_speed_witness :
  let e := EnemyAI.mkMob 0 0 0 0 150 "right" false (Some (100%R, 0%R)) false false None in
  e.(EnemyAI.target) = Some (100%R, 0%R)
  /\ (5 < Rabs (100 - e.(EnemyAI.mx)))%R
  /\ ((EnemyAI.update e).(EnemyAI.mvx) * (EnemyAI.update e).(EnemyAI.mvx)
      + (EnemyAI.update e).(EnemyAI.mvy) * (EnemyAI.update e).(EnemyAI.mvy)
      = e.(EnemyAI.speed) * e.(EnemyAI.speed))%R.
Proof.
  intros e.
  assert (Hx : (5 < Rabs (100 - e.(EnemyAI.mx)))%R).
  { simpl. rewrite Rabs_pos_eq; lra. }
  split; [reflexivity|]. split; [exact Hx|].
  exact (proj1 (EnemyAI_chase_speed e 100 0 eq_refl eq_refl eq_refl (or_introl Hx))).
Defined.

Lemma EnemyAI_coast_witness :
  let e := EnemyAI.mkMob 0 0 3 20 150 "left" true None false false None in
  e.(EnemyAI.target) = None
  /\ (EnemyAI.update e).(EnemyAI.currentDirection) = e.(EnemyAI.currentDirection).
Proof.
  intros e. split; [reflexivity|].
  exact (proj1 (EnemyAI_coast e (or_introl eq_refl))).
Defined.

Lemma PlayerCtl_knocked_back_ignores_input_witness :
  let p := PlayerCtl.mkKnight 0 0 300 0 false "right" DRight false true
             "knight-idle-right" 0 0 0 false false 0 0 false in
  p.(PlayerCtl.isKnockedBack) = true
  /\ (PlayerCtl.update_movement (PlayerCtl.mkKeys true false true false) p)
       .(PlayerCtl.attackDirection) = p.(PlayerCtl.attackDirection).
Proof.
  intros p. split; [reflexivity|].
  exact (proj1 (PlayerCtl_knocked_back_ignores_input
                  (PlayerCtl.mkKeys true false true false) p eq_refl)).
Defined.

Lemma PlayerCtl_move_speed_witness :
  let p := PlayerCtl.mkKnight 0 0 0 0 false "right" DRight false false
             "knight-idle-right" 0 0 0 false false 0 0 false in
  let k := PlayerCtl.mkKeys true false true false in
  p.(PlayerCtl.isKnockedBack) = false
  /\ PlayerCtl.kleft k || PlayerCtl.kright k || PlayerCtl.kup k || PlayerCtl.kdown k = true
  /\ ((PlayerCtl.update_movement k p).(PlayerCtl.pvx) * (PlayerCtl.update_movement k p).(PlayerCtl.pvx)
      + (PlayerCtl.update_movement k p).(PlayerCtl.pvy) * (PlayerCtl.update_movement k p).(PlayerCtl.pvy)
      = 150 * 150)%R.
Proof.
  intros p k. split; [reflexivity|]. split; [reflexivity|].
  exact (proj1 (PlayerCtl_move_speed k p eq_refl eq_refl)).
Defined.

Lemma SwordItems_reach_ok_witness :
  let tiles0 := [((1, 1), 5, true); ((2, 1), 6, false)] in
  let p := PlayerCtl.mkKnight 0 0 0 0 false "right" DRight true false
             "knight-idle-right" 0 0 0 false true 0 0 true in
  exists s', SwordItems.reach tiles0 s' /\ SwordItems.tiles_ok s'
             /\ s'.(Breakable.breakableItems) !! (1, 1)
                = Some (Breakable.mkItem 5 1 2 1000).
Proof.
  intros tiles0 p. eexists.
  assert (Hr : SwordItems.reach tiles0
                 (Breakable.mkTiles
                    (<[(1, 1) := Breakable.mkItem 5 1 2 1000]>
                       (Breakable.initBreakableItems tiles0 ∅))
                    (SwordItems.layer_of tiles0))).
  { apply (SwordItems.reach_frame tiles0 p 1000 [Some ((1, 1), 5); Some ((1, 1), 5)]
             (SwordItems.init_tiles tiles0) _
             [Breakable.TintTile (1, 1); Breakable.RestoreTintAfter 100 (1, 1);
              Breakable.Shake 100]).
    - apply SwordItems.reach_load. simpl.
      constructor; [|constructor; [|constructor]];
        rewrite list_elem_of_In; simpl; intuition discriminate.
    - reflexivity. }
  split; [exact Hr|]. split; [exact (SwordItems_reach_ok tiles0 _ Hr)|].
  simpl. apply lookup_insert_eq.
Defined.

Lemma Waves_session_totals_witness :
  Waves.reachable (Waves.after_create 0)
  /\ ((Waves.after_create 0).(Waves.nextId) <= 15)%nat.
Proof.
  split; [apply Waves.reach_init|].
  exact (proj1 (proj2 (Waves_session_totals (Waves.after_create 0) (Waves.reach_init 0)))).
Defined.


Lemma SceneHealth_death_repeats_witness :
  let s := SceneHealth.mkScene (UI.damage_n 4 (UI.new_UI 5)) 1000 false [] in
  s.(SceneHealth.playerInvincible) = false
  /\ s.(SceneHealth.ui).(UI.currentHealth) <= 1
  /\ SceneHealth.deaths (SceneHealth.contacts 3 s).(SceneHealth.log) = 3%nat.
Proof.
  intros s.
  assert (Hi : s.(SceneHealth.playerInvincible) = false) by reflexivity.
  assert (Hc : s.(SceneHealth.ui).(UI.currentHealth) <= 1) by (vm_compute; discriminate).
  split; [exact Hi|]. split; [exact Hc|].
  exact (proj2 (proj2 (proj2 (SceneHealth_death_repeats 2 s Hi Hc)))).
Defined.

Lemma SceneHealth_hits_to_death_witness :
  let s := SceneHealth.mkScene (UI.new_UI 5) 1000 false [] in
  s.(SceneHealth.playerInvincible) = false
  /\ (1 <= s.(SceneHealth.ui).(UI.currentHealth) <= s.(SceneHealth.ui).(UI.maxHealth))
  /\ SceneHealth.deaths (SceneHealth.damagePlayer (SceneHealth.hits 4 s)).(SceneHealth.log) = 1%nat.
Proof.
  intros s.
  assert (Hi : s.(SceneHealth.playerInvincible) = false) by reflexivity.
  assert (Hc : 1 <= s.(SceneHealth.ui).(UI.currentHealth) <= s.(SceneHealth.ui).(UI.maxHealth))
    by (simpl; lia).
  split; [exact Hi|]. split; [exact Hc|].
  exact (proj2 (proj2 (SceneHealth_hits_to_death s Hi Hc))).
Defined.

Lemma PlayerCtl_sword_on_attack_side_witness :
  let q := mkPlayer true DUp 10 200 in
  let p := PlayerCtl.mkKnight 0 0 0 0 false "right" DUp false false "knight-idle-right"
             0 0 0 false false 0 0 false in
  q.(isAttacking) = true /\ q.(attackDirection) = p.(PlayerCtl.attackDirection)
  /\ ((hitEnemy q 1000 (new_enemy 5 (-20))).1.2.(vy)
      = 200 / (39 / 2) * ((PlayerCtl.updateSwordPosition p).(PlayerCtl.hitboxY) - 0))%R.
Proof.
  intros q p. split; [reflexivity|]. split; [reflexivity|].
  exact (proj2 (proj2 (proj2 (proj2
    (PlayerCtl_sword_on_attack_side p q 1000 (new_enemy 5 (-20)) eq_refl eq_refl))))).
Defined.
